(** * ReaclibRate: a REACLIB rate model on top of ROOT's TF1

    Shallow embedding of [ReaclibRate.hpp] / [ReaclibRate.cpp].

    Conventions of the embedding.
    - [unsigned int] values are integers in [Z]; every arithmetic operation
      the source performs on them is followed by [CInt.wrap] (reduction
      modulo 2^32).  A value handed to a TF1 member that takes an [Int_t]
      goes through [CInt.to_int].
    - [float] and [double] values are real numbers: the development reasons
      in exact arithmetic, rounding is not represented.  [log], [exp] and
      [pow] of <cmath> are the real functions on the part of their domain
      where the C result is a finite number; outside of it (log of a
      non-positive number, division by zero, ...) the C result is an infinity
      or a NaN and the value of the model carries no meaning.
    - The member functions of the class change the object only through
      [SetParameter] and [FixParameter] of the TF1 base class.  A member
      function is therefore embedded as the list of TF1 calls it issues,
      and [TF1.run] executes such a list on the base object. *)

From Stdlib Require Import ZArith List Reals Lra Lia Bool.
From stdpp Require Import base list.
Import ListNotations.

Open Scope Z_scope.

(** ** 32-bit integer arithmetic *)
Module CInt.

Definition UINT_RANGE : Z := 2 ^ 32.
Definition INT_MAX : Z := 2 ^ 31 - 1.

(** The result of an [unsigned int] operation whose exact value is [z]. *)
Definition wrap (z : Z) : Z := z mod UINT_RANGE.

(** Conversion of an [unsigned int] to [Int_t] (a 32-bit [int]). *)
Definition to_int (u : Z) : Z := if u <=? INT_MAX then u else u - UINT_RANGE.

End CInt.

(** ** The functions of <cmath> the class uses *)
Module CMath.

Open Scope R_scope.

Definition log (x : R) : R := ln x.

(** [pow x y]: [exp (y * ln x)] on a positive base; on a base that is not
    positive, the integer power when [y] is an integer, and [0] for
    [pow(0, y)] with [y] positive.  (The remaining cases are infinities
    and NaNs in C.) *)
Definition pow (x y : R) : R :=
  if Rlt_dec 0 x then Rpower x y
  else if Req_dec_T y (IZR (Int_part y)) then powerRZ x (Int_part y)
  else 0.

End CMath.

(** ** The TF1 base class *)
Module TF1.

Open Scope R_scope.

(** Modelled from the spec: the TF1 base class belongs to ROOT and is not
    part of the sources.  Its state is the data model of the specification:
    a parameter vector and a parallel mask of fixed parameters, both of
    length [fNpar], created with every parameter zero and free.
    [SetParameter] stores a value, [FixParameter] stores a value and marks
    the parameter fixed, [GetParameter] reads a value.  An index outside
    [0 .. fNpar-1] is handled the way ROOT does: the two setters return
    without doing anything and the getter returns 0. *)
Record t : Type := mk {
  fNpar : Z;
  fParams : list R;
  fFixed : list bool
}.

Definition new (npar : Z) : t :=
  mk npar (replicate (Z.to_nat npar) 0) (replicate (Z.to_nat npar) false).

Inductive call : Type :=
| SetParameter (ipar : Z) (value : R)
| FixParameter (ipar : Z) (value : R).

Definition call_ipar (c : call) : Z :=
  match c with SetParameter i _ | FixParameter i _ => i end.

Definition call_value (c : call) : R :=
  match c with SetParameter _ v | FixParameter _ v => v end.

Definition call_fixes (c : call) : bool :=
  match c with SetParameter _ _ => false | FixParameter _ _ => true end.

Definition CheckIndex (f : t) (ipar : Z) : bool :=
  negb ((ipar <? 0)%Z || (ipar >? fNpar f - 1)%Z).

Definition exec (f : t) (c : call) : t :=
  if CheckIndex f (call_ipar c) then
    let i := Z.to_nat (call_ipar c) in
    mk (fNpar f)
       (<[i := call_value c]> (fParams f))
       (if call_fixes c then <[i := true]> (fFixed f) else fFixed f)
  else f.

Definition run (cs : list call) (f : t) : t := fold_left exec cs f.

Definition GetParameter (f : t) (ipar : Z) : R :=
  if CheckIndex f ipar then default 0 (fParams f !! Z.to_nat ipar) else 0.

Definition IsFixed (f : t) (ipar : Z) : bool :=
  if CheckIndex f ipar then default false (fFixed f !! Z.to_nat ipar)
  else false.

(** The two vectors have [fNpar] entries. *)
Definition wf (f : t) : Prop :=
  length (fParams f) = Z.to_nat (fNpar f)
  /\ length (fFixed f) = Z.to_nat (fNpar f).

End TF1.

(** ** The class ReaclibRate *)

Import CInt.

Record ReaclibRate : Type := mkReaclibRate {
  base : TF1.t;
  numResonances_ : Z;
  z1_ : Z;
  z2_ : Z;
  mu_amu_ : R
}.

Definition with_base (self : ReaclibRate) (f : TF1.t) : ReaclibRate :=
  mkReaclibRate f (numResonances_ self) (z1_ self) (z2_ self) (mu_amu_ self).

Definition b_ : R := 7.8318e9%R.
Definition d_ : R := 1.5394e11%R.

(** [z1_ * z2_], an [unsigned int] product, converted to floating point. *)
Definition z1z2 (z1 z2 : Z) : R := IZR (wrap (z1 * z2)).

(** The index expression [7 * (i+1) + j] of the constructor and of
    [SetResonance], evaluated on [unsigned int] and passed as [Int_t]. *)
Definition resonance_par (i j : Z) : Z :=
  to_int (wrap (wrap (7 * wrap (i + 1)) + j)).

(** The index expression [7*resonanceId + j] of the two resonance getters. *)
Definition getter_par (resonanceId j : Z) : Z :=
  to_int (wrap (wrap (7 * resonanceId) + j)).

Section Members.

Import TF1.
Open Scope R_scope.

(** *** Constructor *)

Definition ctor_npar (numResonances : Z) : Z :=
  to_int (wrap (7 * wrap (numResonances + 1))).

Definition ctor_nonresonant (z1 z2 : Z) (mu : R) : list call :=
  [ SetParameter 0 (CMath.log (b_ * CMath.pow (z1z2 z1 z2 * mu) (1/3)));
    FixParameter 1 0;
    FixParameter 2 (-4.2486 * CMath.pow (CMath.pow (z1z2 z1 z2) 2 * mu) (1/3));
    FixParameter 6 (-2/3) ].

(** The body of the loop [for (i = 0; i < numResonances_; i++)]. *)
Definition ctor_resonance (mu : R) (i : Z) : list call :=
  [ SetParameter (resonance_par i 0) (CMath.log (d_ * CMath.pow mu (-3/2)));
    SetParameter (resonance_par i 1) (-11.6045) ]
  ++ map (fun j => FixParameter (resonance_par i j) 0) [2; 3; 4; 5]%Z
  ++ [ FixParameter (resonance_par i 6) (-3/2) ].

(** The values [0, 1, ..., n-1] taken by an [unsigned int] loop counter. *)
Definition counter (n : Z) : list Z := map Z.of_nat (seq 0 (Z.to_nat n)).

Definition ctor_calls (numResonances z1 z2 : Z) (mu : R) : list call :=
  ctor_nonresonant z1 z2 mu
  ++ flat_map (ctor_resonance mu) (counter numResonances).

Definition ReaclibRate_ctor (numResonances z1 z2 : Z) (mu : R) : ReaclibRate :=
  mkReaclibRate
    (run (ctor_calls numResonances z1 z2 mu) (new (ctor_npar numResonances)))
    numResonances z1 z2 mu.

(** *** Setters *)

Definition SetSFactor_calls (self : ReaclibRate) (s0_MeVb : R) : list call :=
  [ FixParameter 0
      (CMath.log (b_ * CMath.pow (z1z2 (z1_ self) (z2_ self) * mu_amu_ self) (1/3)
                  * s0_MeVb)) ].

Definition SetSFactor (self : ReaclibRate) (s0_MeVb : R) : ReaclibRate :=
  with_base self (run (SetSFactor_calls self s0_MeVb) (base self)).

Definition SetResonance_calls
    (self : ReaclibRate) (resonanceId : Z) (energy strength : R) : list call :=
  if (resonanceId <=? numResonances_ self)%Z then
    [ FixParameter (resonance_par resonanceId 0)
        (CMath.log (d_ * CMath.pow (mu_amu_ self) (-3/2) * strength));
      FixParameter (resonance_par resonanceId 1) (-11.6045 * energy) ]
  else [].

Definition SetResonance
    (self : ReaclibRate) (resonanceId : Z) (energy strength : R) : ReaclibRate :=
  with_base self
    (run (SetResonance_calls self resonanceId energy strength) (base self)).

(** *** Getters *)

Definition GetReducedMass (self : ReaclibRate) : R :=
  CMath.pow (GetParameter (base self) 2 / -4.2486) 3
  / CMath.pow (z1z2 (z1_ self) (z2_ self)) 2.

Definition GetSFactor (self : ReaclibRate) : R :=
  let mu_amu := GetReducedMass self in
  exp (GetParameter (base self) 0) / b_
  / CMath.pow (z1z2 (z1_ self) (z2_ self) * mu_amu) (1/3).

Definition GetResonanceEnergy (self : ReaclibRate) (resonanceId : Z) : R :=
  if (resonanceId >? numResonances_ self)%Z then -1
  else GetParameter (base self) (getter_par resonanceId 1) / -11.6045.

Definition GetResonanceStrength (self : ReaclibRate) (resonanceId : Z) : R :=
  if (resonanceId >? numResonances_ self)%Z then -1
  else
    let mu_amu := GetReducedMass self in
    exp (GetParameter (base self) (getter_par resonanceId 0)) / d_
    / CMath.pow mu_amu (-3/2).

(** *** Evaluate *)

(** [par[k]] for an [unsigned int] index [k]. *)
Definition at_index (par : list R) (k : Z) : R :=
  default 0 (par !! Z.to_nat k).

(** [7*i+j] as the loops of [Evaluate] compute it. *)
Definition eval_index (i j : Z) : Z := wrap (wrap (7 * i) + j).

(** The value of [component] when the inner loop is left. *)
Definition component (t9 : R) (par : list R) (i : Z) : R :=
  fold_left
    (fun c j => c + at_index par (eval_index i j)
                    * CMath.pow t9 ((2 * IZR j - 5) / 3))
    [1; 2; 3; 4; 5]%Z
    (at_index par (eval_index i 0) + at_index par (eval_index i 6) * CMath.log t9).

(** [t9] stands for [t9[0]], the only entry the function reads. *)
Definition Evaluate (self : ReaclibRate) (t9 : R) (par : list R) : R :=
  fold_left
    (fun reacRate i => reacRate + exp (component t9 par i))
    (counter (wrap (numResonances_ self + 1)))
    0.

End Members.


(** ** Vocabulary of the statements *)

(** A model has a parameter vector of [7 * (numResonances + 1)] entries when
    that number is an [Int_t]. *)
Definition fits_Int_t (numResonances : Z) : Prop :=
  0 <= numResonances /\ 7 * (numResonances + 1) <= INT_MAX.

(** Parameter [k] belongs to the block of resonance [i]. *)
Definition in_block (i k : Z) : bool :=
  (7 * (i + 1) <=? k) && (k <=? 7 * (i + 1) + 6).

(** What the constructor leaves in coefficient [j] of the non-resonant
    block and of a resonance block. *)
Definition nonresonant_seed (z1 z2 : Z) (mu : R) (j : Z) : R :=
  if j =? 0 then CMath.log (b_ * CMath.pow (z1z2 z1 z2 * mu) (1/3))
  else if j =? 2
       then (-4.2486 * CMath.pow (CMath.pow (z1z2 z1 z2) 2 * mu) (1/3))%R
  else if j =? 6 then (-2/3)%R
  else 0%R.

Definition resonance_seed (mu : R) (j : Z) : R :=
  if j =? 0 then CMath.log (d_ * CMath.pow mu (-3/2))
  else if j =? 1 then (-11.6045)%R
  else if j =? 6 then (-3/2)%R
  else 0%R.

Definition nonresonant_fixed (j : Z) : bool :=
  (j =? 1) || (j =? 2) || (j =? 6).

Definition resonance_fixed (j : Z) : bool :=
  negb ((j =? 0) || (j =? 1)).

(** The object is laid out as the constructor lays it out: the vector of
    the base object has [7 * (numResonances_ + 1)] entries. *)
Definition laid_out (self : ReaclibRate) : Prop :=
  fits_Int_t (numResonances_ self)
  /\ TF1.wf (base self)
  /\ TF1.fNpar (base self) = 7 * (numResonances_ self + 1).

(** A value of type [unsigned int]. *)
Definition is_unsigned (z : Z) : Prop := 0 <= z < UINT_RANGE.

(** Calls of the two setters, to speak about sequences of them. *)
Inductive setter_call : Type :=
| CallSetSFactor (s0_MeVb : R)
| CallSetResonance (resonanceId : Z) (energy strength : R).

Definition setter_typed (c : setter_call) : Prop :=
  match c with
  | CallSetSFactor _ => True
  | CallSetResonance resonanceId _ _ => is_unsigned resonanceId
  end.

Definition invoke (self : ReaclibRate) (c : setter_call) : ReaclibRate :=
  match c with
  | CallSetSFactor s0_MeVb => SetSFactor self s0_MeVb
  | CallSetResonance resonanceId energy strength =>
      SetResonance self resonanceId energy strength
  end.

Definition invoke_all (cs : list setter_call) (self : ReaclibRate) : ReaclibRate :=
  fold_left invoke cs self.

(** ** The rate formula in the words of the specification

    [a par i j] is the parameter at index [7*i + j];
    [component_spec] is
    [a(i,0) + a(i,6) ln(t9) + sum_{j=1..5} a(i,j) t9^((2j-5)/3)], and
    [Evaluate_spec] the sum of [exp (component_spec i)] over the blocks
    [i = 0 .. numResonances]. *)
Definition a (par : list R) (i j : nat) : R := nth (7 * i + j) par 0%R.

Definition component_spec (t9 : R) (par : list R) (i : nat) : R :=
  (a par i 0 + a par i 6 * ln t9
   + sum_f 1 5 (fun j => a par i j * Rpower t9 ((2 * INR j - 5) / 3)))%R.

Definition Evaluate_spec (numResonances : nat) (t9 : R) (par : list R) : R :=
  sum_f_R0 (fun i => exp (component_spec t9 par i)) numResonances.

(** A TF1 call on coefficient [a0] or [a1] of some block. *)
Definition a0_or_a1 (c : TF1.call) : Prop :=
  TF1.call_ipar c mod 7 = 0 \/ TF1.call_ipar c mod 7 = 1.

(** The parameters a setter can store into on an object with
    [n] resonances: [a0] of the non-resonant block, and [a0] and [a1] of
    the block of a resonance. *)
Definition setter_target (n k : Z) : bool :=
  (k =? 0) || ((7 <=? k) && (k <? 7 * (n + 1)) && (k mod 7 <=? 1)).

(** ** The terms of the rate in physical form

    Term [i] of the rate an object describes at temperature [t9], read from
    its parameters: for the non-resonant block
    [exp a0 * t9^(-2/3) * exp (a2 * t9^(-1/3))], for a resonance block
    [exp a0 * t9^(-3/2) * exp (a1 / t9)]. *)
Definition rate_term (f : TF1.t) (t9 : R) (i : nat) : R :=
  match i with
  | O =>
      (exp (TF1.GetParameter f 0) * Rpower t9 (-2/3)
       * exp (TF1.GetParameter f 2 * Rpower t9 (-1/3)))%R
  | S _ =>
      (exp (TF1.GetParameter f (7 * Z.of_nat i)) * Rpower t9 (-3/2)
       * exp (TF1.GetParameter f (7 * Z.of_nat i + 1) / t9))%R
  end.

(** ** Ranges of the floating-point types

    Rounding is not represented, but two statements depend on the range of
    a floating-point type, and name it. *)

(** The largest finite [float], [(2^24 - 1) * 2^104]. *)
Definition FLT_MAX : R := 340282346638528859811704183484516925440%R.

(** The [float] product [z1_ * z2_ * mu_amu_] is finite.  Half of [FLT_MAX]
    as the bound on the exact product leaves room for the rounding of the
    conversion of [z1_ * z2_] to [float], of the product itself, and of the
    reduced mass that [GetSFactor] reads back into a [float]. *)
Definition float_product_finite (z1 z2 : Z) (mu : R) : Prop :=
  (z1z2 z1 z2 * mu <= FLT_MAX / 2)%R.

(** [exp] of <cmath> with its underflow: a positive value below [2^-1075],
    half of the smallest positive [double], is rounded to 0.  Above that
    bound the value is the real one. *)
Definition exp_binary64 (x : R) : R :=
  if Rlt_dec (exp x) (/ 2 ^ 1075) then 0%R else exp x.

(** [Evaluate], with the underflow of [exp] in the accumulation
    [reacRate += exp(component)]. *)
Definition Evaluate_binary64 (self : ReaclibRate) (t9 : R) (par : list R) : R :=
  fold_left
    (fun reacRate i => (reacRate + exp_binary64 (component t9 par i))%R)
    (counter (wrap (numResonances_ self + 1)))
    0%R.

(** * Properties *)

(** ** A concrete object

    The scenario of the specification: one resonance, [z1 = 6], [z2 = 1],
    [mu = 0.92]. *)

Section Scenario.

Import TF1.
Open Scope R_scope.

Example scenario_npar : fNpar (base (ReaclibRate_ctor 1 6 1 0.92)) = 14%Z.
Proof. reflexivity. Qed.

Example scenario_fixed_after_construction :
  fFixed (base (ReaclibRate_ctor 1 6 1 0.92))
  = [false; true; true; false; false; false; true;
     false; false; true; true; true; true; true].
Proof. reflexivity. Qed.

Example scenario_fixed_after_setters :
  fFixed (base (SetResonance (SetSFactor (ReaclibRate_ctor 1 6 1 0.92) 0.5)
                  0 0.1 1e-6))
  = [true; true; true; false; false; false; true;
     true; true; true; true; true; true; true].
Proof. reflexivity. Qed.

Example scenario_SetResonance_a1 :
  GetParameter (base (SetResonance (ReaclibRate_ctor 1 6 1 0.92) 0 0.1 1e-6)) 8
  = -11.6045 * 0.1.
Proof. reflexivity. Qed.

(** The setter and the getters do not compute the same index. *)
Example scenario_indices :
  resonance_par 0 0 = 7%Z /\ resonance_par 0 1 = 8%Z
  /\ getter_par 0 0 = 0%Z /\ getter_par 0 1 = 1%Z.
Proof. repeat split; reflexivity. Qed.

Example scenario_wrapped_product : wrap (65536 * 65536) = 0%Z.
Proof. reflexivity. Qed.

End Scenario.

(** ** Integer arithmetic without overflow *)

Lemma wrap_small (z : Z) : 0 <= z < UINT_RANGE -> wrap z = z.
Proof. intros H. unfold wrap. apply Z.mod_small. exact H. Qed.

Lemma to_int_small (u : Z) : u <= INT_MAX -> to_int u = u.
Proof.
  intros H. unfold to_int.
  destruct (Z.leb_spec u INT_MAX) as [_ | Hgt]; [reflexivity | lia].
Qed.

Lemma INT_MAX_val : INT_MAX = 2147483647.
Proof. reflexivity. Qed.

Lemma UINT_RANGE_val : UINT_RANGE = 4294967296.
Proof. reflexivity. Qed.

Ltac int_bounds :=
  unfold fits_Int_t in *; rewrite ?INT_MAX_val, ?UINT_RANGE_val in *; lia.

Ltac decide_eqb :=
  repeat match goal with
  | |- context [Z.eqb ?a ?b] => destruct (Z.eqb_spec a b); try lia
  | |- context [Z.leb ?a ?b] => destruct (Z.leb_spec a b); try lia
  | |- context [Z.ltb ?a ?b] => destruct (Z.ltb_spec a b); try lia
  end.

Lemma resonance_par_exact (i j : Z) :
  0 <= i -> 0 <= j -> 7 * (i + 1) + j <= INT_MAX ->
  resonance_par i j = 7 * (i + 1) + j.
Proof.
  intros Hi Hj Hn. unfold resonance_par.
  rewrite (wrap_small (i + 1)) by int_bounds.
  rewrite (wrap_small (7 * (i + 1))) by int_bounds.
  rewrite wrap_small by int_bounds.
  apply to_int_small. int_bounds.
Qed.

Lemma getter_par_exact (n i j : Z) :
  fits_Int_t n -> 0 <= i <= n -> 0 <= j <= 6 ->
  getter_par i j = 7 * i + j.
Proof.
  intros Hn Hi Hj. unfold getter_par.
  rewrite (wrap_small (7 * i)) by int_bounds.
  rewrite wrap_small by int_bounds.
  apply to_int_small. int_bounds.
Qed.

Lemma eval_index_exact (n i j : Z) :
  fits_Int_t n -> 0 <= i <= n -> 0 <= j <= 6 ->
  eval_index i j = 7 * i + j.
Proof.
  intros Hn Hi Hj. unfold eval_index.
  rewrite (wrap_small (7 * i)) by int_bounds.
  apply wrap_small. int_bounds.
Qed.

Lemma ctor_npar_exact (n : Z) : fits_Int_t n -> ctor_npar n = 7 * (n + 1).
Proof.
  intros Hn. unfold ctor_npar.
  rewrite (wrap_small (n + 1)) by int_bounds.
  rewrite wrap_small by int_bounds.
  apply to_int_small. int_bounds.
Qed.

(** ** The power function on the arguments the class passes *)

Section PowFacts.

Open Scope R_scope.

Lemma pow_positive_base (x y : R) : 0 < x -> CMath.pow x y = Rpower x y.
Proof.
  intros Hx. unfold CMath.pow.
  destruct (Rlt_dec 0 x) as [_ | Hn]; [reflexivity | contradiction].
Qed.

Lemma pow_gt_0 (x y : R) : 0 < x -> 0 < CMath.pow x y.
Proof.
  intros Hx. rewrite pow_positive_base by exact Hx.
  unfold Rpower. apply exp_pos.
Qed.

Lemma Int_part_IZR (z : Z) : Int_part (IZR z) = z.
Proof. symmetry. apply Int_part_spec. lra. Qed.

Lemma pow_square (x : R) : CMath.pow x 2 = x * x.
Proof.
  unfold CMath.pow. destruct (Rlt_dec 0 x) as [Hx | Hx].
  - replace 2 with (INR 2) by (simpl; lra).
    rewrite Rpower_pow by exact Hx. simpl. ring.
  - rewrite Int_part_IZR.
    destruct (Req_dec_T 2 2) as [_ | Hne]; [| contradiction].
    simpl. ring.
Qed.

Lemma pow_cube (x : R) : CMath.pow x 3 = x * x * x.
Proof.
  unfold CMath.pow. destruct (Rlt_dec 0 x) as [Hx | Hx].
  - replace 3 with (INR 3) by (simpl; lra).
    rewrite Rpower_pow by exact Hx. simpl. ring.
  - rewrite Int_part_IZR.
    destruct (Req_dec_T 3 3) as [_ | Hne]; [| contradiction].
    simpl. ring.
Qed.

Lemma pow_zero_third : CMath.pow 0 (1/3) = 0.
Proof.
  unfold CMath.pow. destruct (Rlt_dec 0 0) as [H | _]; [lra |].
  assert (Hip : Int_part (1/3) = 0%Z) by (symmetry; apply Int_part_spec; lra).
  rewrite Hip. destruct (Req_dec_T (1/3) 0) as [H | _]; [lra | reflexivity].
Qed.

(** The cube of a cube root. *)
Lemma cube_of_cube_root (x : R) :
  0 < x -> CMath.pow (CMath.pow x (1/3)) 3 = x.
Proof.
  intros Hx.
  rewrite (pow_positive_base (CMath.pow x (1/3)) 3) by (apply pow_gt_0; exact Hx).
  rewrite (pow_positive_base x) by exact Hx.
  rewrite Rpower_mult.
  replace (1 / 3 * 3) with 1 by field.
  apply Rpower_1. exact Hx.
Qed.

End PowFacts.

(** ** The parameter store *)

Section TF1Facts.

Import TF1.
Open Scope R_scope.

Lemma CheckIndex_true (f : t) (i : Z) :
  CheckIndex f i = true <-> (0 <= i <= fNpar f - 1)%Z.
Proof.
  unfold CheckIndex. rewrite negb_true_iff, orb_false_iff.
  rewrite Z.ltb_ge, Z.gtb_ltb, Z.ltb_ge. reflexivity.
Qed.

Lemma CheckIndex_false (f : t) (i : Z) :
  CheckIndex f i = false <-> (i < 0 \/ fNpar f - 1 < i)%Z.
Proof.
  rewrite <- not_true_iff_false, CheckIndex_true. lia.
Qed.

Lemma fNpar_exec (f : t) (c : call) : fNpar (exec f c) = fNpar f.
Proof. unfold exec. destruct (CheckIndex f (call_ipar c)); reflexivity. Qed.

Lemma fNpar_run (cs : list call) (f : t) : fNpar (run cs f) = fNpar f.
Proof.
  revert f. induction cs as [| c cs IH]; intros f; simpl; [reflexivity |].
  unfold run in IH. rewrite IH. apply fNpar_exec.
Qed.

Lemma CheckIndex_exec (f : t) (c : call) (i : Z) :
  CheckIndex (exec f c) i = CheckIndex f i.
Proof. unfold CheckIndex. rewrite fNpar_exec. reflexivity. Qed.

Lemma CheckIndex_run (cs : list call) (f : t) (i : Z) :
  CheckIndex (run cs f) i = CheckIndex f i.
Proof. unfold CheckIndex. rewrite fNpar_run. reflexivity. Qed.

Lemma wf_new (npar : Z) : wf (new npar).
Proof. split; simpl; apply length_replicate. Qed.

Lemma wf_exec (f : t) (c : call) : wf f -> wf (exec f c).
Proof.
  intros [Hp Hf]. unfold exec.
  destruct (CheckIndex f (call_ipar c)); [| split; assumption].
  split; simpl.
  - rewrite length_insert. exact Hp.
  - destruct (call_fixes c); [rewrite length_insert |]; exact Hf.
Qed.

Lemma wf_run (cs : list call) (f : t) : wf f -> wf (run cs f).
Proof.
  revert f. induction cs as [| c cs IH]; intros f Hf; simpl; [exact Hf |].
  apply IH, wf_exec, Hf.
Qed.

Lemma run_app (cs1 cs2 : list call) (f : t) :
  run (cs1 ++ cs2) f = run cs2 (run cs1 f).
Proof. unfold run. apply fold_left_app. Qed.

Lemma run_cons (c : call) (cs : list call) (f : t) :
  run (c :: cs) f = run cs (exec f c).
Proof. reflexivity. Qed.

Lemma run_nil (f : t) : run [] f = f.
Proof. reflexivity. Qed.

(** A call changes the parameter it names, when that parameter exists, and
    no other. *)
Lemma GetParameter_exec (f : t) (c : call) (i : Z) :
  wf f ->
  GetParameter (exec f c) i =
    if ((call_ipar c =? i)%Z && CheckIndex f i)%bool then call_value c
    else GetParameter f i.
Proof.
  intros [Hp _]. unfold GetParameter. rewrite CheckIndex_exec.
  destruct (CheckIndex f i) eqn:Hi; [| rewrite andb_false_r; reflexivity].
  rewrite andb_true_r. apply CheckIndex_true in Hi.
  unfold exec. destruct (Z.eqb_spec (call_ipar c) i) as [-> | Hne].
  - assert (Hc : CheckIndex f i = true) by (apply CheckIndex_true; exact Hi).
    rewrite Hc. simpl.
    rewrite list_lookup_insert_eq by (rewrite Hp; lia). reflexivity.
  - destruct (CheckIndex f (call_ipar c)) eqn:Hc; [| reflexivity].
    apply CheckIndex_true in Hc. simpl.
    rewrite list_lookup_insert_ne by lia. reflexivity.
Qed.

Lemma IsFixed_exec (f : t) (c : call) (i : Z) :
  wf f ->
  IsFixed (exec f c) i =
    if ((call_ipar c =? i)%Z && CheckIndex f i && call_fixes c)%bool then true
    else IsFixed f i.
Proof.
  intros [_ Hf]. unfold IsFixed. rewrite CheckIndex_exec.
  destruct (CheckIndex f i) eqn:Hi;
    [| rewrite andb_false_r; reflexivity].
  rewrite andb_true_r. apply CheckIndex_true in Hi.
  unfold exec. destruct (Z.eqb_spec (call_ipar c) i) as [-> | Hne].
  - assert (Hc : CheckIndex f i = true) by (apply CheckIndex_true; exact Hi).
    rewrite Hc. simpl. destruct (call_fixes c); [| reflexivity].
    rewrite list_lookup_insert_eq by (rewrite Hf; lia). reflexivity.
  - simpl. destruct (CheckIndex f (call_ipar c)) eqn:Hc; [| reflexivity].
    apply CheckIndex_true in Hc. simpl.
    destruct (call_fixes c); [| reflexivity].
    rewrite list_lookup_insert_ne by lia. reflexivity.
Qed.

(** Calls on other parameters leave a parameter as it is. *)
Lemma GetParameter_run_other (cs : list call) (f : t) (i : Z) :
  wf f -> Forall (fun c => call_ipar c <> i) cs ->
  GetParameter (run cs f) i = GetParameter f i.
Proof.
  revert f. induction cs as [| c cs IH]; intros f Hf Hcs; [reflexivity |].
  inversion Hcs as [| ? ? Hc Hrest]; subst.
  rewrite run_cons, IH by (try apply wf_exec; assumption).
  rewrite GetParameter_exec by exact Hf.
  destruct (Z.eqb_spec (call_ipar c) i); [contradiction | reflexivity].
Qed.

Lemma IsFixed_run_other (cs : list call) (f : t) (i : Z) :
  wf f -> Forall (fun c => call_ipar c <> i) cs ->
  IsFixed (run cs f) i = IsFixed f i.
Proof.
  revert f. induction cs as [| c cs IH]; intros f Hf Hcs; [reflexivity |].
  inversion Hcs as [| ? ? Hc Hrest]; subst.
  rewrite run_cons, IH by (try apply wf_exec; assumption).
  rewrite IsFixed_exec by exact Hf.
  destruct (Z.eqb_spec (call_ipar c) i); [contradiction | reflexivity].
Qed.

(** Calls on parameters that do not exist leave the object as it is. *)
Lemma run_out_of_range (cs : list call) (f : t) :
  Forall (fun c => CheckIndex f (call_ipar c) = false) cs -> run cs f = f.
Proof.
  induction cs as [| c cs IH]; intros Hcs; [reflexivity |].
  inversion Hcs as [| ? ? Hc Hrest]; subst.
  rewrite run_cons. unfold exec at 1. rewrite Hc. apply IH, Hrest.
Qed.

Lemma GetParameter_new (npar i : Z) : GetParameter (new npar) i = 0.
Proof.
  unfold GetParameter. destruct (CheckIndex (new npar) i) eqn:Hi; [| reflexivity].
  apply CheckIndex_true in Hi. simpl in *.
  rewrite lookup_replicate_2 by lia. reflexivity.
Qed.

Lemma IsFixed_new (npar i : Z) : IsFixed (new npar) i = false.
Proof.
  unfold IsFixed. destruct (CheckIndex (new npar) i) eqn:Hi; [| reflexivity].
  apply CheckIndex_true in Hi. simpl in *.
  rewrite lookup_replicate_2 by lia. reflexivity.
Qed.

End TF1Facts.

(** ** The object after construction *)

Section Construction.

Import TF1.
Open Scope R_scope.

(** One round of the constructor's loop writes the seven coefficients of
    block [i] and nothing else. *)
Lemma ctor_resonance_GetParameter (mu : R) (i k : Z) (f : t) :
  wf f -> (0 <= i)%Z -> (7 * (i + 1) + 6 <= fNpar f - 1)%Z ->
  (fNpar f - 1 <= INT_MAX)%Z ->
  GetParameter (run (ctor_resonance mu i) f) k =
    if in_block i k then resonance_seed mu (k - 7 * (i + 1))
    else GetParameter f k.
Proof.
  intros Hf Hi Hblock Hmax. unfold ctor_resonance. simpl map. simpl app.
  rewrite !resonance_par_exact by lia.
  rewrite !run_cons, run_nil.
  rewrite !GetParameter_exec by (repeat apply wf_exec; exact Hf).
  rewrite !CheckIndex_exec.
  unfold in_block, resonance_seed. simpl call_ipar. simpl call_value.
  destruct (CheckIndex f k) eqn:Hk.
  - apply CheckIndex_true in Hk. rewrite !andb_true_r.
    decide_eqb; reflexivity.
  - rewrite !andb_false_r. apply CheckIndex_false in Hk.
    decide_eqb; reflexivity.
Qed.

Lemma ctor_resonance_IsFixed (mu : R) (i k : Z) (f : t) :
  wf f -> (0 <= i)%Z -> (7 * (i + 1) + 6 <= fNpar f - 1)%Z ->
  (fNpar f - 1 <= INT_MAX)%Z ->
  IsFixed (run (ctor_resonance mu i) f) k =
    if in_block i k then
      (resonance_fixed (k - 7 * (i + 1)) || IsFixed f k)%bool
    else IsFixed f k.
Proof.
  intros Hf Hi Hblock Hmax. unfold ctor_resonance. simpl map. simpl app.
  rewrite !resonance_par_exact by lia.
  rewrite !run_cons, run_nil.
  rewrite !IsFixed_exec by (repeat apply wf_exec; exact Hf).
  rewrite !CheckIndex_exec.
  unfold in_block, resonance_fixed. simpl call_ipar. simpl call_fixes.
  destruct (CheckIndex f k) eqn:Hk.
  - apply CheckIndex_true in Hk. rewrite !andb_true_r, ?andb_false_r.
    decide_eqb; reflexivity.
  - rewrite !andb_false_r. apply CheckIndex_false in Hk.
    unfold IsFixed. assert (Hk' : CheckIndex f k = false)
      by (apply CheckIndex_false; exact Hk).
    rewrite Hk'. decide_eqb; reflexivity.
Qed.

Lemma in_block_offset (i k : Z) :
  in_block i k = true -> (k - 7 * (i + 1) = k mod 7)%Z.
Proof.
  unfold in_block. rewrite andb_true_iff, !Z.leb_le. intros [Hlo Hhi].
  apply (Z.mod_unique_pos k 7 (i + 1)); lia.
Qed.

(** The whole loop, over any list of blocks that exist. *)
Lemma ctor_loop_GetParameter (mu : R) (blocks : list Z) (k : Z) (f : t) :
  wf f -> (fNpar f - 1 <= INT_MAX)%Z ->
  Forall (fun i => 0 <= i /\ 7 * (i + 1) + 6 <= fNpar f - 1)%Z blocks ->
  GetParameter (run (flat_map (ctor_resonance mu) blocks) f) k =
    if existsb (fun i => in_block i k) blocks then resonance_seed mu (k mod 7)
    else GetParameter f k.
Proof.
  revert f. induction blocks as [| i blocks IH]; intros f Hf Hmax Hall;
    [reflexivity |].
  inversion Hall as [| ? ? [Hi Hblock] Hrest]; subst.
  change (flat_map (ctor_resonance mu) (i :: blocks))
    with (ctor_resonance mu i ++ flat_map (ctor_resonance mu) blocks).
  rewrite run_app.
  rewrite IH.
  - rewrite ctor_resonance_GetParameter by assumption. simpl existsb.
    destruct (in_block i k) eqn:Hik; simpl.
    + rewrite (in_block_offset _ _ Hik).
      destruct (existsb _ blocks); reflexivity.
    + reflexivity.
  - apply wf_run, Hf.
  - rewrite fNpar_run. exact Hmax.
  - rewrite fNpar_run. exact Hrest.
Qed.

Lemma ctor_loop_IsFixed (mu : R) (blocks : list Z) (k : Z) (f : t) :
  wf f -> (fNpar f - 1 <= INT_MAX)%Z ->
  Forall (fun i => 0 <= i /\ 7 * (i + 1) + 6 <= fNpar f - 1)%Z blocks ->
  IsFixed (run (flat_map (ctor_resonance mu) blocks) f) k =
    if existsb (fun i => in_block i k) blocks then
      (resonance_fixed (k mod 7) || IsFixed f k)%bool
    else IsFixed f k.
Proof.
  revert f. induction blocks as [| i blocks IH]; intros f Hf Hmax Hall;
    [reflexivity |].
  inversion Hall as [| ? ? [Hi Hblock] Hrest]; subst.
  change (flat_map (ctor_resonance mu) (i :: blocks))
    with (ctor_resonance mu i ++ flat_map (ctor_resonance mu) blocks).
  rewrite run_app.
  rewrite IH.
  - rewrite ctor_resonance_IsFixed by assumption. simpl existsb.
    destruct (in_block i k) eqn:Hik; simpl.
    + rewrite (in_block_offset _ _ Hik).
      destruct (existsb _ blocks); [| reflexivity].
      destruct (resonance_fixed (k mod 7)); reflexivity.
    + reflexivity.
  - apply wf_run, Hf.
  - rewrite fNpar_run. exact Hmax.
  - rewrite fNpar_run. exact Hrest.
Qed.

Lemma In_counter (n i : Z) : In i (counter n) <-> (0 <= i < n)%Z.
Proof.
  unfold counter. rewrite in_map_iff. split.
  - intros [m [<- Hm]]. apply in_seq in Hm. lia.
  - intros Hi. exists (Z.to_nat i). split; [lia |]. apply in_seq. lia.
Qed.

Lemma existsb_in_block (n k : Z) :
  existsb (fun i => in_block i k) (counter n)
  = ((7 <=? k)%Z && (k <? 7 * (n + 1))%Z)%bool.
Proof.
  apply eq_true_iff_eq. rewrite existsb_exists, andb_true_iff.
  rewrite Z.leb_le, Z.ltb_lt. split.
  - intros [i [Hin Hik]]. apply In_counter in Hin.
    unfold in_block in Hik. rewrite andb_true_iff, !Z.leb_le in Hik. lia.
  - intros [Hlo Hhi]. exists (k / 7 - 1)%Z.
    pose proof (Z.div_mod k 7 ltac:(lia)) as Hdiv.
    pose proof (Z.mod_pos_bound k 7 ltac:(lia)) as Hmod.
    split.
    + apply In_counter. lia.
    + unfold in_block. rewrite andb_true_iff, !Z.leb_le. lia.
Qed.

Lemma wf_ctor (n z1 z2 : Z) (mu : R) : wf (base (ReaclibRate_ctor n z1 z2 mu)).
Proof. unfold ReaclibRate_ctor. cbn [base]. apply wf_run, wf_new. Qed.

Lemma fNpar_ctor (n z1 z2 : Z) (mu : R) :
  fits_Int_t n -> fNpar (base (ReaclibRate_ctor n z1 z2 mu)) = (7 * (n + 1))%Z.
Proof.
  intros Hn. unfold ReaclibRate_ctor. cbn [base].
  rewrite fNpar_run. apply ctor_npar_exact, Hn.
Qed.

Lemma counter_blocks_exist (n : Z) :
  Forall (fun i => 0 <= i /\ 7 * (i + 1) + 6 <= 7 * (n + 1) - 1)%Z (counter n).
Proof. apply List.Forall_forall. intros i Hi. apply In_counter in Hi. lia. Qed.

(** Every parameter after construction. *)
Lemma ctor_GetParameter (n z1 z2 : Z) (mu : R) (k : Z) :
  fits_Int_t n -> (0 <= k < 7 * (n + 1))%Z ->
  GetParameter (base (ReaclibRate_ctor n z1 z2 mu)) k =
    if (k <? 7)%Z then nonresonant_seed z1 z2 mu k
    else resonance_seed mu (k mod 7).
Proof.
  intros Hn Hk. unfold ReaclibRate_ctor, ctor_calls. cbn [base].
  rewrite run_app. rewrite (ctor_npar_exact n Hn).
  set (f0 := new (7 * (n + 1))).
  assert (Hf0 : wf f0) by apply wf_new.
  assert (Hnp : fNpar (run (ctor_nonresonant z1 z2 mu) f0) = (7 * (n + 1))%Z)
    by (rewrite fNpar_run; reflexivity).
  rewrite ctor_loop_GetParameter.
  - rewrite existsb_in_block.
    destruct (Z.ltb_spec k 7) as [Hlt | Hge].
    + replace (7 <=? k)%Z with false by (symmetry; apply Z.leb_gt; exact Hlt).
      simpl andb. cbv iota.
      unfold ctor_nonresonant. rewrite !run_cons, run_nil.
      rewrite !GetParameter_exec by (repeat apply wf_exec; exact Hf0).
      rewrite !CheckIndex_exec.
      assert (Hc : CheckIndex f0 k = true)
        by (apply CheckIndex_true; simpl; lia).
      rewrite Hc, !andb_true_r. unfold f0. rewrite GetParameter_new.
      unfold nonresonant_seed. simpl call_ipar. simpl call_value.
      decide_eqb; reflexivity.
    + replace (7 <=? k)%Z with true by (symmetry; apply Z.leb_le; exact Hge).
      replace (k <? 7 * (n + 1))%Z with true
        by (symmetry; apply Z.ltb_lt; lia).
      reflexivity.
  - apply wf_run, Hf0.
  - rewrite Hnp. int_bounds.
  - rewrite Hnp. apply counter_blocks_exist.
Qed.

Lemma ctor_IsFixed (n z1 z2 : Z) (mu : R) (k : Z) :
  fits_Int_t n -> (0 <= k < 7 * (n + 1))%Z ->
  IsFixed (base (ReaclibRate_ctor n z1 z2 mu)) k =
    if (k <? 7)%Z then nonresonant_fixed k else resonance_fixed (k mod 7).
Proof.
  intros Hn Hk. unfold ReaclibRate_ctor, ctor_calls. cbn [base].
  rewrite run_app. rewrite (ctor_npar_exact n Hn).
  set (f0 := new (7 * (n + 1))).
  assert (Hf0 : wf f0) by apply wf_new.
  assert (Hnp : fNpar (run (ctor_nonresonant z1 z2 mu) f0) = (7 * (n + 1))%Z)
    by (rewrite fNpar_run; reflexivity).
  assert (Hhead : IsFixed (run (ctor_nonresonant z1 z2 mu) f0) k =
                  ((k <? 7)%Z && nonresonant_fixed k)%bool).
  { unfold ctor_nonresonant. rewrite !run_cons, run_nil.
    rewrite !IsFixed_exec by (repeat apply wf_exec; exact Hf0).
    rewrite !CheckIndex_exec.
    assert (Hc : CheckIndex f0 k = true)
      by (apply CheckIndex_true; simpl; lia).
    rewrite Hc, !andb_true_r. unfold f0. rewrite IsFixed_new.
    unfold nonresonant_fixed. simpl call_ipar. simpl call_fixes.
    decide_eqb; reflexivity. }
  rewrite ctor_loop_IsFixed.
  - rewrite existsb_in_block, Hhead.
    destruct (Z.ltb_spec k 7) as [Hlt | Hge].
    + replace (7 <=? k)%Z with false by (symmetry; apply Z.leb_gt; exact Hlt).
      reflexivity.
    + replace (7 <=? k)%Z with true by (symmetry; apply Z.leb_le; exact Hge).
      replace (k <? 7 * (n + 1))%Z with true
        by (symmetry; apply Z.ltb_lt; lia).
      simpl. apply orb_false_r.
  - apply wf_run, Hf0.
  - rewrite Hnp. int_bounds.
  - rewrite Hnp. apply counter_blocks_exist.
Qed.

End Construction.

(** ** Reduced mass and S-factor *)

Section PhysicalQuantities.

Import TF1.
Open Scope R_scope.

Lemma z1z2_positive (z1 z2 : Z) : wrap (z1 * z2) <> 0%Z -> 0 < z1z2 z1 z2.
Proof.
  intros Hw. unfold z1z2. apply IZR_lt.
  pose proof (Z.mod_pos_bound (z1 * z2) UINT_RANGE ltac:(reflexivity)) as Hb.
  unfold wrap in *. lia.
Qed.

(** The getter inverts the formula of the [a2] coefficient. *)
Lemma reduced_mass_inverts_a2 (w mu : R) :
  0 < w -> 0 < mu ->
  CMath.pow (-4.2486 * CMath.pow (CMath.pow w 2 * mu) (1/3) / -4.2486) 3
  / CMath.pow w 2 = mu.
Proof.
  intros Hw Hmu. rewrite pow_square.
  assert (Hx : 0 < w * w * mu)
    by (apply Rmult_lt_0_compat; [apply Rmult_lt_0_compat |]; assumption).
  replace (-4.2486 * CMath.pow (w * w * mu) (1/3) / -4.2486)
    with (CMath.pow (w * w * mu) (1/3)) by (field; lra).
  rewrite cube_of_cube_root by exact Hx.
  field. lra.
Qed.

Lemma GetReducedMass_of_a2 (self : ReaclibRate) :
  wrap (z1_ self * z2_ self) <> 0%Z -> 0 < mu_amu_ self ->
  GetParameter (base self) 2
    = nonresonant_seed (z1_ self) (z2_ self) (mu_amu_ self) 2 ->
  GetReducedMass self = mu_amu_ self.
Proof.
  intros Hw Hmu Ha2. unfold GetReducedMass. rewrite Ha2.
  unfold nonresonant_seed. simpl.
  apply reduced_mass_inverts_a2; [apply z1z2_positive |]; assumption.
Qed.

End PhysicalQuantities.

(** ** Sequences of setter calls *)

Section Setters.

Import TF1.
Open Scope R_scope.

Lemma laid_out_ctor (n z1 z2 : Z) (mu : R) :
  fits_Int_t n -> laid_out (ReaclibRate_ctor n z1 z2 mu).
Proof.
  intros Hn. split; [exact Hn |]. split; [apply wf_ctor |].
  apply fNpar_ctor, Hn.
Qed.

Lemma SetSFactor_calls_a0 (self : ReaclibRate) (s : R) :
  Forall a0_or_a1 (SetSFactor_calls self s).
Proof. constructor; [left; reflexivity | constructor]. Qed.

Lemma SetResonance_calls_a0_a1 (self : ReaclibRate) (id : Z) (e w : R) :
  laid_out self -> is_unsigned id ->
  Forall a0_or_a1 (SetResonance_calls self id e w).
Proof.
  intros (Hn & _ & _) Hid. unfold SetResonance_calls.
  destruct (Z.leb_spec id (numResonances_ self)) as [Hle | _];
    [| constructor].
  unfold is_unsigned in Hid.
  rewrite !resonance_par_exact by int_bounds.
  constructor; [| constructor; [| constructor]];
    unfold a0_or_a1; simpl call_ipar.
  - left. symmetry. apply (Z.mod_unique_pos _ 7 (id + 1)); lia.
  - right. symmetry. apply (Z.mod_unique_pos _ 7 (id + 1)); lia.
Qed.

Lemma a0_or_a1_other (k : Z) (cs : list call) :
  (k mod 7 <> 0)%Z -> (k mod 7 <> 1)%Z ->
  Forall a0_or_a1 cs -> Forall (fun c => call_ipar c <> k) cs.
Proof.
  intros H0 H1 Hcs. eapply List.Forall_impl; [| exact Hcs].
  intros c [Hc | Hc] Heq; rewrite Heq in Hc; contradiction.
Qed.

Lemma invoke_calls (self : ReaclibRate) (c : setter_call) :
  laid_out self -> setter_typed c ->
  exists cs, Forall a0_or_a1 cs /\ invoke self c = with_base self (run cs (base self)).
Proof.
  intros Hself Hc. destruct c as [s | id e w]; simpl.
  - exists (SetSFactor_calls self s). split; [apply SetSFactor_calls_a0 | reflexivity].
  - exists (SetResonance_calls self id e w).
    split; [apply SetResonance_calls_a0_a1; assumption | reflexivity].
Qed.

Lemma laid_out_with_base (self : ReaclibRate) (cs : list call) :
  laid_out self -> laid_out (with_base self (run cs (base self))).
Proof.
  intros (Hn & Hwf & Hnp). split; [exact Hn |]. split; simpl.
  - apply wf_run, Hwf.
  - rewrite fNpar_run. exact Hnp.
Qed.

Lemma laid_out_invoke_all (cs : list setter_call) (self : ReaclibRate) :
  laid_out self -> Forall setter_typed cs -> laid_out (invoke_all cs self).
Proof.
  revert self. induction cs as [| c cs IH]; intros self Hself Hcs;
    [exact Hself |].
  inversion Hcs as [| ? ? Hc Hrest]; subst. simpl. apply IH; [| exact Hrest].
  destruct (invoke_calls self c Hself Hc) as (tcs & _ & ->).
  apply laid_out_with_base, Hself.
Qed.

Lemma fields_invoke_all (cs : list setter_call) (self : ReaclibRate) :
  numResonances_ (invoke_all cs self) = numResonances_ self
  /\ z1_ (invoke_all cs self) = z1_ self
  /\ z2_ (invoke_all cs self) = z2_ self
  /\ mu_amu_ (invoke_all cs self) = mu_amu_ self.
Proof.
  revert self. induction cs as [| c cs IH]; intros self; [repeat split |].
  simpl. destruct (IH (invoke self c)) as (-> & -> & -> & ->).
  destruct c; repeat split.
Qed.

(** Coefficients other than [a0] and [a1] survive every sequence of setter
    calls, with their fixed flags. *)
Lemma invoke_all_other (cs : list setter_call) (self : ReaclibRate) (k : Z) :
  laid_out self -> Forall setter_typed cs ->
  (k mod 7 <> 0)%Z -> (k mod 7 <> 1)%Z ->
  GetParameter (base (invoke_all cs self)) k = GetParameter (base self) k
  /\ IsFixed (base (invoke_all cs self)) k = IsFixed (base self) k.
Proof.
  intros Hself Hcs H0 H1. revert self Hself.
  induction cs as [| c cs IH]; intros self Hself; [split; reflexivity |].
  inversion Hcs as [| ? ? Hc Hrest]; subst. simpl.
  destruct (invoke_calls self c Hself Hc) as (tcs & Htcs & Heq).
  assert (Hnext : laid_out (invoke self c))
    by (rewrite Heq; apply laid_out_with_base, Hself).
  destruct (IH Hrest (invoke self c) Hnext) as [-> ->].
  rewrite Heq. simpl base. destruct Hself as (_ & Hwf & _).
  pose proof (a0_or_a1_other k tcs H0 H1 Htcs) as Hother.
  split.
  - apply GetParameter_run_other; assumption.
  - apply IsFixed_run_other; assumption.
Qed.

End Setters.

(** ** Round trips of the non-resonant block *)

Section NonResonant.

Import TF1.
Open Scope R_scope.

Lemma b_positive : 0 < b_.
Proof. unfold b_. lra. Qed.

Lemma d_positive : 0 < d_.
Proof. unfold d_. lra. Qed.

(** [GetSFactor] inverts the formula of the [a0] coefficient. *)
Lemma GetSFactor_of_a0 (self : ReaclibRate) (s : R) :
  wrap (z1_ self * z2_ self) <> 0%Z -> 0 < mu_amu_ self -> 0 < s ->
  GetParameter (base self) 2
    = nonresonant_seed (z1_ self) (z2_ self) (mu_amu_ self) 2 ->
  GetParameter (base self) 0
    = CMath.log (b_ * CMath.pow (z1z2 (z1_ self) (z2_ self) * mu_amu_ self) (1/3) * s) ->
  GetSFactor self = s.
Proof.
  intros Hw Hmu Hs Ha2 Ha0. unfold GetSFactor.
  rewrite (GetReducedMass_of_a2 self Hw Hmu Ha2), Ha0.
  pose proof (z1z2_positive _ _ Hw) as Hz.
  pose proof b_positive as Hb.
  assert (Hp : 0 < CMath.pow (z1z2 (z1_ self) (z2_ self) * mu_amu_ self) (1/3))
    by (apply pow_gt_0, Rmult_lt_0_compat; assumption).
  unfold CMath.log. rewrite exp_ln.
  - field. split; lra.
  - apply Rmult_lt_0_compat; [apply Rmult_lt_0_compat |]; assumption.
Qed.

Lemma a2_after_setters (n z1 z2 : Z) (mu : R) (calls : list setter_call) :
  fits_Int_t n -> Forall setter_typed calls ->
  GetParameter (base (invoke_all calls (ReaclibRate_ctor n z1 z2 mu))) 2
  = nonresonant_seed z1 z2 mu 2.
Proof.
  intros Hn Hcalls.
  destruct (invoke_all_other calls (ReaclibRate_ctor n z1 z2 mu) 2
              (laid_out_ctor n z1 z2 mu Hn) Hcalls) as [-> _];
    [discriminate | discriminate |].
  rewrite ctor_GetParameter by int_bounds. reflexivity.
Qed.

Lemma GetParameter_SetSFactor (self : ReaclibRate) (s : R) (k : Z) :
  laid_out self ->
  GetParameter (base (SetSFactor self s)) k =
    if (k =? 0)%Z
    then CMath.log (b_ * CMath.pow (z1z2 (z1_ self) (z2_ self) * mu_amu_ self) (1/3) * s)
    else GetParameter (base self) k.
Proof.
  intros (Hn & Hwf & Hnp).
  unfold SetSFactor, SetSFactor_calls, with_base. cbn [base].
  rewrite run_cons, run_nil, GetParameter_exec by exact Hwf.
  simpl call_ipar. simpl call_value.
  destruct (Z.eqb_spec 0 k) as [<- | Hne].
  - assert (Hc : CheckIndex (base self) 0 = true)
      by (apply CheckIndex_true; rewrite Hnp; int_bounds).
    rewrite Hc. reflexivity.
  - destruct (Z.eqb_spec k 0); [lia | reflexivity].
Qed.

(** C5 (amended): when the parameter count [7 * (numResonances + 1)] is an
    [Int_t], the 32-bit product [z1 * z2] is not zero and [mu > 0],
    [GetReducedMass()] called right after construction returns [mu]
    (in exact arithmetic). *)
Theorem GetReducedMass_after_construction (n z1 z2 : Z) (mu : R) :
  fits_Int_t n -> wrap (z1 * z2) <> 0%Z -> 0 < mu ->
  GetReducedMass (ReaclibRate_ctor n z1 z2 mu) = mu.
Proof.
  intros Hn Hw Hmu.
  apply (GetReducedMass_of_a2 (ReaclibRate_ctor n z1 z2 mu)); simpl; try assumption.
  apply (a2_after_setters n z1 z2 mu [] Hn). constructor.
Qed.

Lemma GetReducedMass_after_construction_witness :
  fits_Int_t 1 /\ wrap (6 * 1) <> 0%Z /\ 0 < 0.92
  /\ GetReducedMass (ReaclibRate_ctor 1 6 1 0.92) = 0.92.
Proof.
  assert (H1 : fits_Int_t 1) by (unfold fits_Int_t, INT_MAX; lia).
  assert (H2 : wrap (6 * 1) <> 0%Z) by (vm_compute; discriminate).
  assert (H3 : 0 < 0.92) by lra.
  split; [exact H1 |]. split; [exact H2 |]. split; [exact H3 |].
  apply (GetReducedMass_after_construction 1 6 1 0.92 H1 H2 H3).
Defined.

(** The product of the charges 65536 and 65536 is 0 on 32 bits. *)
Lemma z1z2_wrapped : z1z2 65536 65536 = 0.
Proof. reflexivity. Qed.

Lemma fits_Int_t_0 : fits_Int_t 0.
Proof. unfold fits_Int_t, INT_MAX. lia. Qed.

Lemma zero_divided (x : R) : 0 / x = 0.
Proof. unfold Rdiv. apply Rmult_0_l. Qed.

(** C5, counterexample: [z1 = z2 = 65536] and [mu = 1] are charges of at
    least 1 and a positive mass, yet the reduced mass read back is not 1:
    the stored [a2] is 0 whatever [mu] is, and the getter divides 0 by 0
    (a NaN in C). *)
Lemma GetReducedMass_wrapped_product :
  GetReducedMass (ReaclibRate_ctor 0 65536 65536 1) <> 1.
Proof.
  unfold GetReducedMass.
  rewrite ctor_GetParameter by (try apply fits_Int_t_0; lia).
  unfold ReaclibRate_ctor. cbn [z1_ z2_].
  change (2 <? 7)%Z with true. cbv iota.
  unfold nonresonant_seed.
  change (2 =? 0)%Z with false. change (2 =? 2)%Z with true. cbv iota.
  rewrite z1z2_wrapped, !pow_square, pow_cube.
  replace (0 * 0 * 1) with 0 by ring.
  rewrite pow_zero_third, Rmult_0_r, zero_divided, !Rmult_0_l, zero_divided.
  lra.
Qed.

(** C10 (amended): when the parameter count [7 * (numResonances + 1)] is an
    [Int_t], the 32-bit product [z1 * z2] is not zero, [mu > 0] and the
    [float] product [z1_ * z2_ * mu_amu_] is finite, [GetSFactor()] called
    right after construction returns 1 (in exact arithmetic). *)
Theorem GetSFactor_after_construction (n z1 z2 : Z) (mu : R) :
  fits_Int_t n -> wrap (z1 * z2) <> 0%Z -> 0 < mu ->
  float_product_finite z1 z2 mu ->
  GetSFactor (ReaclibRate_ctor n z1 z2 mu) = 1.
Proof.
  intros Hn Hw Hmu _.
  apply (GetSFactor_of_a0 (ReaclibRate_ctor n z1 z2 mu) 1);
    cbn [z1_ z2_ mu_amu_ ReaclibRate_ctor]; try assumption; try lra.
  - apply (a2_after_setters n z1 z2 mu [] Hn). constructor.
  - rewrite ctor_GetParameter by int_bounds.
    change (0 <? 7)%Z with true. cbv iota. unfold nonresonant_seed.
    change (0 =? 0)%Z with true. cbv iota. rewrite Rmult_1_r. reflexivity.
Qed.

Lemma GetSFactor_after_construction_witness :
  fits_Int_t 1 /\ wrap (6 * 1) <> 0%Z /\ 0 < 0.92
  /\ float_product_finite 6 1 0.92
  /\ GetSFactor (ReaclibRate_ctor 1 6 1 0.92) = 1.
Proof.
  assert (H1 : fits_Int_t 1) by (unfold fits_Int_t, INT_MAX; lia).
  assert (H2 : wrap (6 * 1) <> 0%Z) by (vm_compute; discriminate).
  assert (H3 : 0 < 0.92) by lra.
  assert (H4 : float_product_finite 6 1 0.92)
    by (unfold float_product_finite, z1z2, FLT_MAX;
        change (wrap (6 * 1)) with 6%Z; lra).
  split; [exact H1 |]. split; [exact H2 |]. split; [exact H3 |].
  split; [exact H4 |].
  apply (GetSFactor_after_construction 1 6 1 0.92 H1 H2 H3 H4).
Defined.

(** With a charge product that is 0 on 32 bits the divisor of [GetSFactor]
    is [pow (0 * mu_amu) (1/3)].  (In C, [mu_amu] is then the NaN that
    [GetReducedMass] gets from [0/0], and the quotient is a NaN as well.) *)
Lemma GetSFactor_wrapped_divisor (self : ReaclibRate) :
  z1z2 (z1_ self) (z2_ self) = 0 ->
  GetSFactor self = exp (GetParameter (base self) 0) / b_ / 0.
Proof.
  intros Hz. unfold GetSFactor. cbv zeta.
  rewrite Hz, Rmult_0_l, pow_zero_third. reflexivity.
Qed.

Lemma divided_by_zero (x : R) : x / 0 = 0.
Proof. unfold Rdiv. rewrite Rinv_0. apply Rmult_0_r. Qed.

(** C10, counterexample: for [z1 = z2 = 65536] and [mu = 1] the S-factor
    read back after construction is not 1. *)
Lemma GetSFactor_wrapped_product :
  GetSFactor (ReaclibRate_ctor 0 65536 65536 1) <> 1.
Proof.
  rewrite GetSFactor_wrapped_divisor by apply z1z2_wrapped.
  rewrite divided_by_zero. lra.
Qed.

(** C6 (amended): when the parameter count [7 * (numResonances + 1)] is an
    [Int_t], the 32-bit product [z1 * z2] is not zero, [mu > 0] and the
    [float] product [z1_ * z2_ * mu_amu_] is finite, then after any sequence
    of setter calls on the constructed object, [SetSFactor(s)] with [s > 0]
    followed by [GetSFactor()] returns [s] (in exact arithmetic). *)
Theorem GetSFactor_SetSFactor
    (n z1 z2 : Z) (mu : R) (calls : list setter_call) (s : R) :
  fits_Int_t n -> wrap (z1 * z2) <> 0%Z -> 0 < mu ->
  float_product_finite z1 z2 mu ->
  Forall setter_typed calls -> 0 < s ->
  GetSFactor (SetSFactor (invoke_all calls (ReaclibRate_ctor n z1 z2 mu)) s) = s.
Proof.
  intros Hn Hw Hmu _ Hcalls Hs.
  set (m := invoke_all calls (ReaclibRate_ctor n z1 z2 mu)).
  assert (Hm : laid_out m)
    by (apply laid_out_invoke_all; [apply laid_out_ctor, Hn | exact Hcalls]).
  destruct (fields_invoke_all calls (ReaclibRate_ctor n z1 z2 mu))
    as (_ & Hz1 & Hz2 & Hmu').
  fold m in Hz1, Hz2, Hmu'. cbn [z1_ z2_ mu_amu_ ReaclibRate_ctor] in Hz1, Hz2, Hmu'.
  apply GetSFactor_of_a0;
    change (z1_ (SetSFactor m s)) with (z1_ m);
    change (z2_ (SetSFactor m s)) with (z2_ m);
    change (mu_amu_ (SetSFactor m s)) with (mu_amu_ m);
    rewrite ?Hz1, ?Hz2, ?Hmu'; try assumption.
  - rewrite GetParameter_SetSFactor by exact Hm.
    change (2 =? 0)%Z with false. cbv iota.
    apply a2_after_setters; assumption.
  - rewrite GetParameter_SetSFactor by exact Hm.
    change (0 =? 0)%Z with true. cbv iota.
    rewrite Hz1, Hz2, Hmu'. reflexivity.
Qed.

Lemma GetSFactor_SetSFactor_witness :
  fits_Int_t 1 /\ wrap (6 * 1) <> 0%Z /\ 0 < 0.92
  /\ float_product_finite 6 1 0.92
  /\ Forall setter_typed [CallSetResonance 0 0.1 1e-6] /\ 0 < 0.5
  /\ GetSFactor
       (SetSFactor
          (invoke_all [CallSetResonance 0 0.1 1e-6] (ReaclibRate_ctor 1 6 1 0.92))
          0.5) = 0.5.
Proof.
  assert (H1 : fits_Int_t 1) by (unfold fits_Int_t, INT_MAX; lia).
  assert (H2 : wrap (6 * 1) <> 0%Z) by (vm_compute; discriminate).
  assert (H3 : 0 < 0.92) by lra.
  assert (H4 : Forall setter_typed [CallSetResonance 0 0.1 1e-6])
    by (constructor;
        [unfold setter_typed, is_unsigned, UINT_RANGE; lia | constructor]).
  assert (H5 : 0 < 0.5) by lra.
  assert (H6 : float_product_finite 6 1 0.92)
    by (unfold float_product_finite, z1z2, FLT_MAX;
        change (wrap (6 * 1)) with 6%Z; lra).
  split; [exact H1 |]. split; [exact H2 |]. split; [exact H3 |].
  split; [exact H6 |]. split; [exact H4 |]. split; [exact H5 |].
  apply (GetSFactor_SetSFactor 1 6 1 0.92 _ 0.5 H1 H2 H3 H6 H4 H5).
Defined.

(** C6, counterexample: for [z1 = z2 = 65536], [mu = 1] and [s = 2] the
    S-factor read back after [SetSFactor(s)] is not [s]. *)
Lemma GetSFactor_SetSFactor_wrapped_product :
  GetSFactor (SetSFactor (ReaclibRate_ctor 0 65536 65536 1) 2) <> 2.
Proof.
  rewrite GetSFactor_wrapped_divisor by apply z1z2_wrapped.
  rewrite divided_by_zero. lra.
Qed.

End NonResonant.

(** ** Resonance blocks *)

Section Resonances.

Import TF1.
Open Scope R_scope.

(** What [SetResonance] stores, for a resonance that exists. *)
Lemma GetParameter_SetResonance (self : ReaclibRate) (id : Z) (e w : R) (k : Z) :
  laid_out self -> (0 <= id < numResonances_ self)%Z ->
  GetParameter (base (SetResonance self id e w)) k =
    if (k =? 7 * (id + 1))%Z
    then CMath.log (d_ * CMath.pow (mu_amu_ self) (-3/2) * w)
    else if (k =? 7 * (id + 1) + 1)%Z then -11.6045 * e
    else GetParameter (base self) k.
Proof.
  intros (Hn & Hwf & Hnp) Hid.
  unfold SetResonance, SetResonance_calls, with_base. cbn [base].
  destruct (Z.leb_spec id (numResonances_ self)) as [_ | Hgt]; [| lia].
  rewrite !resonance_par_exact by int_bounds.
  rewrite !run_cons, run_nil.
  rewrite !GetParameter_exec by (repeat apply wf_exec; exact Hwf).
  rewrite !CheckIndex_exec. simpl call_ipar. simpl call_value.
  destruct (CheckIndex (base self) k) eqn:Hk.
  - rewrite !andb_true_r. decide_eqb; reflexivity.
  - rewrite !andb_false_r. apply CheckIndex_false in Hk. rewrite Hnp in Hk.
    decide_eqb; reflexivity.
Qed.

(** [SetResonance] leaves the coefficients of the non-resonant block alone. *)
Lemma GetParameter_SetResonance_nonresonant
    (self : ReaclibRate) (id : Z) (e w : R) (k : Z) :
  laid_out self -> is_unsigned id -> (0 <= k < 7)%Z ->
  GetParameter (base (SetResonance self id e w)) k = GetParameter (base self) k.
Proof.
  intros Hself Hid Hk. pose proof Hself as (Hn & Hwf & Hnp).
  unfold SetResonance, SetResonance_calls, with_base. cbn [base].
  destruct (Z.leb_spec id (numResonances_ self)) as [Hle | _];
    [| reflexivity].
  unfold is_unsigned in Hid.
  apply GetParameter_run_other; [exact Hwf |].
  rewrite !resonance_par_exact by int_bounds.
  constructor; [| constructor; [| constructor]]; simpl call_ipar; lia.
Qed.

Lemma GetReducedMass_SetResonance (self : ReaclibRate) (id : Z) (e w : R) :
  laid_out self -> is_unsigned id ->
  GetReducedMass (SetResonance self id e w) = GetReducedMass self.
Proof.
  intros Hself Hid. unfold GetReducedMass.
  rewrite GetParameter_SetResonance_nonresonant by (try assumption; lia).
  reflexivity.
Qed.

(** After [SetResonance(0, e, w)] the two getters called with the same
    identifier read the non-resonant block: the energy is that of the fixed
    [a1 = 0], and the strength is what it was before the call. *)
Lemma getters_miss_resonance_0 (n z1 z2 : Z) (mu e w : R) :
  fits_Int_t n ->
  let m := ReaclibRate_ctor n z1 z2 mu in
  GetResonanceEnergy (SetResonance m 0 e w) 0 = 0
  /\ GetResonanceStrength (SetResonance m 0 e w) 0 = GetResonanceStrength m 0.
Proof.
  intros Hn m.
  assert (Hm : laid_out m) by (apply laid_out_ctor, Hn).
  assert (H0 : is_unsigned 0) by (unfold is_unsigned, UINT_RANGE; lia).
  assert (Hg : (0 >? n)%Z = false)
    by (rewrite Z.gtb_ltb; apply Z.ltb_ge; int_bounds).
  split.
  - unfold GetResonanceEnergy.
    change (numResonances_ (SetResonance m 0 e w)) with n. rewrite Hg.
    change (getter_par 0 1) with 1%Z.
    rewrite GetParameter_SetResonance_nonresonant by (try assumption; lia).
    unfold m. rewrite ctor_GetParameter by int_bounds.
    change (1 <? 7)%Z with true. cbv iota. unfold nonresonant_seed.
    change (1 =? 0)%Z with false. change (1 =? 2)%Z with false.
    change (1 =? 6)%Z with false. cbv iota. apply zero_divided.
  - unfold GetResonanceStrength.
    change (numResonances_ (SetResonance m 0 e w)) with n.
    change (numResonances_ m) with n. rewrite Hg. cbv zeta.
    change (getter_par 0 0) with 0%Z.
    rewrite GetReducedMass_SetResonance by assumption.
    rewrite GetParameter_SetResonance_nonresonant by (try assumption; lia).
    reflexivity.
Qed.

(** The value stored by [SetResonance(id, e, w)] is returned by
    [GetResonanceEnergy(id + 1)], when block [id + 1] exists. *)
Lemma GetResonanceEnergy_one_block_up (self : ReaclibRate) (id : Z) (e w : R) :
  laid_out self -> (0 <= id < numResonances_ self)%Z ->
  GetResonanceEnergy (SetResonance self id e w) (id + 1) = e.
Proof.
  intros Hself Hid. pose proof Hself as (Hn & _ & _).
  unfold GetResonanceEnergy.
  change (numResonances_ (SetResonance self id e w)) with (numResonances_ self).
  replace (id + 1 >? numResonances_ self)%Z with false
    by (symmetry; rewrite Z.gtb_ltb; apply Z.ltb_ge; lia).
  rewrite (getter_par_exact (numResonances_ self)) by (try assumption; lia).
  rewrite GetParameter_SetResonance by assumption.
  decide_eqb. field. lra.
Qed.

(** C1, at the input [numResonances = 1], [z1 = 6], [z2 = 1], [mu = 0.92],
    [SetResonance(0, 0.1, 1.0e-6)]: [GetResonanceEnergy(0)] returns 0 and
    [GetResonanceStrength(0)] returns what it returned before the call. *)
Theorem resonance_round_trip_fails :
  let m := ReaclibRate_ctor 1 6 1 0.92 in
  GetResonanceEnergy (SetResonance m 0 0.1 1e-6) 0 = 0
  /\ GetResonanceStrength (SetResonance m 0 0.1 1e-6) 0 = GetResonanceStrength m 0.
Proof.
  apply getters_miss_resonance_0. unfold fits_Int_t, INT_MAX. lia.
Qed.

Lemma with_base_same (self : ReaclibRate) : with_base self (base self) = self.
Proof. destruct self. reflexivity. Qed.

(** The calls [SetResonance] issues for an identifier that is not below
    [numResonances]: none, or two on indices past the end of the vector. *)
Lemma SetResonance_calls_past_the_end (self : ReaclibRate) (id : Z) (e w : R) :
  laid_out self -> is_unsigned id -> (numResonances_ self <= id)%Z ->
  Forall (fun c => (Z.of_nat (length (fParams (base self))) <= call_ipar c)%Z)
    (SetResonance_calls self id e w).
Proof.
  intros (Hn & (Hlen & _) & Hnp) Hid Hout. unfold SetResonance_calls.
  destruct (Z.leb_spec id (numResonances_ self)) as [Hle | _];
    [| constructor].
  assert (Heq : id = numResonances_ self) by lia. subst id.
  rewrite !resonance_par_exact by int_bounds.
  rewrite Hlen, Hnp.
  constructor; [| constructor; [| constructor]]; simpl call_ipar; int_bounds.
Qed.

Lemma CheckIndex_past_the_end (f : t) (i : Z) :
  wf f -> (Z.of_nat (length (fParams f)) <= i)%Z -> CheckIndex f i = false.
Proof. intros [Hlen _] Hi. apply CheckIndex_false. lia. Qed.

(** C3: on an object laid out by the constructor, [SetResonance] called with
    an identifier outside [0 .. numResonances - 1] addresses no entry of the
    parameter vector and leaves the object as it is: parameter vector and
    fixed mask are unchanged. *)
Theorem SetResonance_out_of_range (self : ReaclibRate) (id : Z) (e w : R) :
  laid_out self -> is_unsigned id -> (numResonances_ self <= id)%Z ->
  Forall (fun c => (Z.of_nat (length (fParams (base self))) <= call_ipar c)%Z)
    (SetResonance_calls self id e w)
  /\ SetResonance self id e w = self.
Proof.
  intros Hself Hid Hout.
  pose proof (SetResonance_calls_past_the_end self id e w Hself Hid Hout) as Hcalls.
  split; [exact Hcalls |].
  unfold SetResonance.
  rewrite run_out_of_range; [apply with_base_same |].
  eapply List.Forall_impl; [| exact Hcalls].
  intros c Hc. apply CheckIndex_past_the_end; [apply Hself | exact Hc].
Qed.

Lemma SetResonance_out_of_range_witness :
  let m := ReaclibRate_ctor 1 6 1 0.92 in
  laid_out m /\ is_unsigned 1 /\ (numResonances_ m <= 1)%Z
  /\ SetResonance m 1 0.1 1e-6 = m.
Proof.
  intros m.
  assert (H1 : laid_out m)
    by (apply laid_out_ctor; unfold fits_Int_t, INT_MAX; lia).
  assert (H2 : is_unsigned 1) by (unfold is_unsigned, UINT_RANGE; lia).
  assert (H3 : (numResonances_ m <= 1)%Z) by (simpl; lia).
  split; [exact H1 |]. split; [exact H2 |]. split; [exact H3 |].
  exact (proj2 (SetResonance_out_of_range m 1 0.1 1e-6 H1 H2 H3)).
Defined.

(** C4 (amended): on an object laid out by the constructor, [SetResonance]
    called with [resonanceId = numResonances] passes the test
    [resonanceId <= numResonances_] and calls [FixParameter] on the indices
    [7 * (numResonances + 1) + 0] and [7 * (numResonances + 1) + 1].  The
    parameter vector has [7 * (numResonances + 1)] entries, so both indices
    lie past its end; the base class refuses them, nothing is written and
    the object is left as it was. *)
Theorem SetResonance_at_numResonances (self : ReaclibRate) (e w : R) :
  laid_out self ->
  let n := numResonances_ self in
  let calls := SetResonance_calls self n e w in
  calls =
    [ FixParameter (7 * (n + 1) + 0)
        (CMath.log (d_ * CMath.pow (mu_amu_ self) (-3/2) * w));
      FixParameter (7 * (n + 1) + 1) (-11.6045 * e) ]
  /\ Z.of_nat (length (fParams (base self))) = (7 * (n + 1))%Z
  /\ Forall (fun c => CheckIndex (base self) (call_ipar c) = false) calls
  /\ SetResonance self n e w = self.
Proof.
  intros Hself n calls. pose proof Hself as (Hn & (Hlen & Hlen') & Hnp).
  assert (Hu : is_unsigned n) by (unfold is_unsigned, n; int_bounds).
  assert (Hpast :
    Forall (fun c => CheckIndex (base self) (call_ipar c) = false) calls).
  { eapply List.Forall_impl;
      [| apply (SetResonance_calls_past_the_end self n e w Hself Hu);
         unfold n; lia].
    intros c Hc. apply CheckIndex_past_the_end; [split; assumption | exact Hc]. }
  split; [| split; [| split]].
  - unfold calls, SetResonance_calls, n. rewrite Z.leb_refl.
    rewrite !resonance_par_exact by int_bounds. reflexivity.
  - rewrite Hlen, Hnp. unfold n. int_bounds.
  - exact Hpast.
  - unfold SetResonance. fold n. fold calls.
    rewrite (run_out_of_range calls (base self) Hpast). apply with_base_same.
Qed.

Lemma SetResonance_at_numResonances_witness :
  let m := ReaclibRate_ctor 1 6 1 0.92 in
  laid_out m
  /\ SetResonance_calls m 1 0.1 1e-6 =
       [ FixParameter 14 (CMath.log (d_ * CMath.pow 0.92 (-3/2) * 1e-6));
         FixParameter 15 (-11.6045 * 0.1) ]
  /\ SetResonance m 1 0.1 1e-6 = m.
Proof.
  intros m.
  assert (H1 : laid_out m)
    by (apply laid_out_ctor; unfold fits_Int_t, INT_MAX; lia).
  split; [exact H1 |].
  split.
  - exact (proj1 (SetResonance_at_numResonances m 0.1 1e-6 H1)).
  - exact (proj2 (proj2 (proj2 (SetResonance_at_numResonances m 0.1 1e-6 H1)))).
Defined.

(** C4, counterexample: with one resonance the parameter vector has the 14
    entries 0 to 13.  After [SetResonance(1, 0.1, 1.0e-6)] there is still no
    entry 14 or 15, and the object is the one before the call: nothing was
    written to the indices past the end. *)
Lemma SetResonance_at_numResonances_writes_nothing :
  let m := ReaclibRate_ctor 1 6 1 0.92 in
  fParams (base (SetResonance m 1 0.1 1e-6)) !! 14%nat = None
  /\ fParams (base (SetResonance m 1 0.1 1e-6)) !! 15%nat = None
  /\ SetResonance m 1 0.1 1e-6 = m.
Proof. repeat split; reflexivity. Qed.

(** C7: for an identifier above [numResonances] both resonance getters
    return -1. *)
Theorem resonance_getters_sentinel (self : ReaclibRate) (id : Z) :
  (id > numResonances_ self)%Z ->
  GetResonanceEnergy self id = -1 /\ GetResonanceStrength self id = -1.
Proof.
  intros Hid. unfold GetResonanceEnergy, GetResonanceStrength.
  replace (id >? numResonances_ self)%Z with true
    by (symmetry; rewrite Z.gtb_ltb; apply Z.ltb_lt; lia).
  split; reflexivity.
Qed.

Lemma resonance_getters_sentinel_witness :
  let m := ReaclibRate_ctor 1 6 1 0.92 in
  (2 > numResonances_ m)%Z
  /\ GetResonanceEnergy m 2 = -1 /\ GetResonanceStrength m 2 = -1.
Proof.
  intros m.
  assert (H : (2 > numResonances_ m)%Z) by (simpl; lia).
  split; [exact H |].
  apply (resonance_getters_sentinel m 2 H).
Defined.

(** C9: after construction and any sequence of [SetSFactor] and
    [SetResonance] calls, coefficient [a6] of the non-resonant block is
    [-2/3] and fixed, and coefficient [a6] of every resonance block is
    [-3/2] and fixed. *)
Theorem a6_fixed_forever
    (n z1 z2 : Z) (mu : R) (calls : list setter_call) :
  fits_Int_t n -> Forall setter_typed calls ->
  let m := invoke_all calls (ReaclibRate_ctor n z1 z2 mu) in
  (GetParameter (base m) 6 = -2/3 /\ IsFixed (base m) 6 = true)
  /\ forall i : Z, (0 <= i < n)%Z ->
       GetParameter (base m) (7 * (i + 1) + 6) = -3/2
       /\ IsFixed (base m) (7 * (i + 1) + 6) = true.
Proof.
  intros Hn Hcalls m.
  pose proof (laid_out_ctor n z1 z2 mu Hn) as Hm0.
  split.
  - destruct (invoke_all_other calls _ 6 Hm0 Hcalls) as [Hg Hf];
      [discriminate | discriminate |].
    unfold m. rewrite Hg, Hf.
    rewrite ctor_GetParameter, ctor_IsFixed by int_bounds.
    split; reflexivity.
  - intros i Hi.
    assert (Hmod : ((7 * (i + 1) + 6) mod 7 = 6)%Z)
      by (symmetry; apply (Z.mod_unique_pos _ 7 (i + 1)); lia).
    destruct (invoke_all_other calls _ (7 * (i + 1) + 6) Hm0 Hcalls)
      as [Hg Hf]; [rewrite Hmod; discriminate | rewrite Hmod; discriminate |].
    unfold m. rewrite Hg, Hf.
    rewrite ctor_GetParameter, ctor_IsFixed by (try exact Hn; lia).
    replace (7 * (i + 1) + 6 <? 7)%Z with false
      by (symmetry; apply Z.ltb_ge; lia).
    rewrite Hmod. split; reflexivity.
Qed.

Lemma a6_fixed_forever_witness :
  let calls := [CallSetSFactor 0.5; CallSetResonance 0 0.1 1e-6;
                CallSetResonance 1 2 3] in
  let m := invoke_all calls (ReaclibRate_ctor 1 6 1 0.92) in
  fits_Int_t 1 /\ Forall setter_typed calls
  /\ GetParameter (base m) 6 = -2/3 /\ IsFixed (base m) 6 = true
  /\ GetParameter (base m) 13 = -3/2 /\ IsFixed (base m) 13 = true.
Proof.
  intros calls m.
  assert (H1 : fits_Int_t 1) by (unfold fits_Int_t, INT_MAX; lia).
  assert (H2 : Forall setter_typed calls)
    by (repeat (constructor; [unfold setter_typed, is_unsigned, UINT_RANGE;
                              try exact I; lia |]); constructor).
  destruct (a6_fixed_forever 1 6 1 0.92 calls H1 H2) as [[Ha Hb] Hres].
  destruct (Hres 0%Z ltac:(lia)) as [Hc Hd].
  split; [exact H1 |]. split; [exact H2 |].
  split; [exact Ha |]. split; [exact Hb |]. split; [exact Hc | exact Hd].
Defined.

End Resonances.

(** ** The rate *)

Section Rate.

Open Scope R_scope.

Lemma at_index_nth (par : list R) (k : Z) (m : nat) :
  Z.to_nat k = m -> at_index par k = nth m par 0.
Proof. intros <-. unfold at_index. symmetry. apply nth_lookup. Qed.

(** Coefficient [j] of block [i], as [Evaluate] indexes it. *)
Lemma at_eval_index (n : Z) (par : list R) (i : nat) (j : Z) (j' : nat) :
  fits_Int_t n -> (Z.of_nat i <= n)%Z -> (0 <= j <= 6)%Z -> Z.to_nat j = j' ->
  at_index par (eval_index (Z.of_nat i) j) = a par i j'.
Proof.
  intros Hn Hi Hj <-.
  rewrite (eval_index_exact n) by (try assumption; lia).
  unfold a. apply at_index_nth. lia.
Qed.

Lemma component_is_component_spec (n : Z) (t9 : R) (par : list R) (i : nat) :
  fits_Int_t n -> (Z.of_nat i <= n)%Z -> 0 < t9 ->
  component t9 par (Z.of_nat i) = component_spec t9 par i.
Proof.
  intros Hn Hi Ht9. unfold component, component_spec. cbn [fold_left].
  rewrite !pow_positive_base by exact Ht9.
  rewrite (at_eval_index n par i 0 0), (at_eval_index n par i 6 6),
    (at_eval_index n par i 1 1), (at_eval_index n par i 2 2),
    (at_eval_index n par i 3 3), (at_eval_index n par i 4 4),
    (at_eval_index n par i 5 5)
    by (try assumption; try reflexivity; lia).
  unfold CMath.log, sum_f. cbn [Nat.sub sum_f_R0 Nat.add].
  change (INR 1) with 1.
  replace (INR 2) with 2 by (simpl; lra).
  replace (INR 3) with 3 by (simpl; lra).
  replace (INR 4) with 4 by (simpl; lra).
  replace (INR 5) with 5 by (simpl; lra).
  ring.
Qed.

(** The accumulation loop of [Evaluate] is a finite sum. *)
Lemma accumulate_is_sum (g : Z -> R) (h : nat -> R) (N : nat) :
  (forall i : nat, (i <= N)%nat -> g (Z.of_nat i) = h i) ->
  fold_left (fun reacRate i => reacRate + g i) (map Z.of_nat (seq 0 (S N))) 0
  = sum_f_R0 h N.
Proof.
  induction N as [| N IH]; intros Hgh.
  - simpl. rewrite (Hgh 0%nat) by lia. apply Rplus_0_l.
  - rewrite seq_S, map_app, fold_left_app.
    rewrite IH by (intros i Hi; apply Hgh; lia).
    simpl. rewrite (Hgh (S N)) by lia. reflexivity.
Qed.

Lemma counter_blocks (n : Z) :
  fits_Int_t n -> counter (wrap (n + 1)) = map Z.of_nat (seq 0 (S (Z.to_nat n))).
Proof.
  intros Hn. unfold counter. rewrite wrap_small by int_bounds.
  replace (Z.to_nat (n + 1)) with (S (Z.to_nat n)) by int_bounds.
  reflexivity.
Qed.

(** C2: for [t9 > 0] and a parameter vector of length
    [7 * (numResonances + 1)], [Evaluate] returns the sum over the blocks
    [i = 0 .. numResonances] of
    [exp (a(i,0) + a(i,6) ln t9 + sum_{j=1..5} a(i,j) t9^((2j-5)/3))]. *)
Theorem Evaluate_is_Evaluate_spec (self : ReaclibRate) (t9 : R) (par : list R) :
  fits_Int_t (numResonances_ self) -> 0 < t9 ->
  Z.of_nat (length par) = (7 * (numResonances_ self + 1))%Z ->
  Evaluate self t9 par = Evaluate_spec (Z.to_nat (numResonances_ self)) t9 par.
Proof.
  intros Hn Ht9 _. unfold Evaluate, Evaluate_spec.
  rewrite (counter_blocks _ Hn).
  apply (accumulate_is_sum (fun i => exp (component t9 par i))).
  intros i Hi. f_equal.
  apply (component_is_component_spec (numResonances_ self)); try assumption.
  unfold fits_Int_t in Hn. lia.
Qed.

Lemma Evaluate_is_Evaluate_spec_witness :
  let m := ReaclibRate_ctor 0 6 1 0.92 in
  let par := [1; 2; 3; 4; 5; 6; 7] in
  fits_Int_t (numResonances_ m) /\ 0 < 1
  /\ Z.of_nat (length par) = (7 * (numResonances_ m + 1))%Z
  /\ Evaluate m 1 par = Evaluate_spec 0 1 par.
Proof.
  intros m par.
  assert (H1 : fits_Int_t (numResonances_ m))
    by (unfold fits_Int_t, INT_MAX; simpl; lia).
  assert (H2 : 0 < 1) by lra.
  assert (H3 : Z.of_nat (length par) = (7 * (numResonances_ m + 1))%Z)
    by reflexivity.
  split; [exact H1 |]. split; [exact H2 |]. split; [exact H3 |].
  apply (Evaluate_is_Evaluate_spec m 1 par H1 H2 H3).
Defined.

Lemma sum_of_exponentials_positive (c : nat -> R) (N : nat) :
  0 < sum_f_R0 (fun i => exp (c i)) N.
Proof.
  induction N as [| N IH]; simpl.
  - apply exp_pos.
  - apply Rplus_lt_0_compat; [exact IH | apply exp_pos].
Qed.

(** In exact arithmetic the rate is positive.  (The [double] that the code
    returns is another matter: [exp] of a component below about -745 is 0
    in binary64, so the returned sum can be 0.) *)
Lemma Evaluate_positive_in_exact_arithmetic
    (self : ReaclibRate) (t9 : R) (par : list R) :
  fits_Int_t (numResonances_ self) -> 0 < t9 ->
  Z.of_nat (length par) = (7 * (numResonances_ self + 1))%Z ->
  0 < Evaluate self t9 par.
Proof.
  intros Hn _ _. unfold Evaluate. rewrite (counter_blocks _ Hn).
  rewrite (accumulate_is_sum (fun i => exp (component t9 par i))
             (fun i => exp (component t9 par (Z.of_nat i))))
    by reflexivity.
  apply sum_of_exponentials_positive.
Qed.

End Rate.

(** * Further properties of the class *)

(** ** How the setters compose *)

Section Composition.

Import TF1.
Open Scope R_scope.

(** A second call on the same parameter replaces the first, unless it would
    have to take a fixed mark away. *)
Lemma exec_overwrite (f : t) (c1 c2 : call) :
  call_ipar c1 = call_ipar c2 ->
  (call_fixes c1 = true -> call_fixes c2 = true) ->
  exec (exec f c1) c2 = exec f c2.
Proof.
  intros Hi Hfix. unfold exec at 1 3. rewrite CheckIndex_exec.
  destruct (CheckIndex f (call_ipar c2)) eqn:Hc2.
  - unfold exec. rewrite Hi, Hc2. cbn [fNpar fParams fFixed].
    rewrite list_insert_insert_eq. f_equal.
    destruct (call_fixes c1) eqn:H1.
    + rewrite (Hfix eq_refl). apply list_insert_insert_eq.
    + reflexivity.
  - unfold exec. rewrite Hi, Hc2. reflexivity.
Qed.

(** Calls on different parameters can be exchanged. *)
Lemma exec_commute (f : t) (c1 c2 : call) :
  call_ipar c1 <> call_ipar c2 ->
  exec (exec f c1) c2 = exec (exec f c2) c1.
Proof.
  intros Hne. unfold exec at 1 3. rewrite !CheckIndex_exec.
  destruct (CheckIndex f (call_ipar c2)) eqn:Hc2;
    destruct (CheckIndex f (call_ipar c1)) eqn:Hc1;
    unfold exec; rewrite ?Hc1, ?Hc2; try reflexivity.
  cbn [fNpar fParams fFixed].
  apply CheckIndex_true in Hc1. apply CheckIndex_true in Hc2.
  assert (Hnat : Z.to_nat (call_ipar c2) <> Z.to_nat (call_ipar c1)) by lia.
  f_equal.
  - apply list_insert_insert_ne. exact Hnat.
  - destruct (call_fixes c1), (call_fixes c2); try reflexivity.
    apply list_insert_insert_ne. exact Hnat.
Qed.

Lemma resonance_par_distinct (id : Z) : resonance_par id 0 <> resonance_par id 1.
Proof.
  unfold resonance_par.
  set (x := wrap (7 * wrap (id + 1))).
  assert (Hx : (0 <= x < UINT_RANGE)%Z)
    by (apply Z.mod_pos_bound; reflexivity).
  rewrite (wrap_small (x + 0)%Z) by lia.
  destruct (Z.eq_dec x (UINT_RANGE - 1)%Z) as [Hmax | Hlt].
  - rewrite Hmax. vm_compute. discriminate.
  - rewrite (wrap_small (x + 1)%Z) by lia. unfold to_int.
    rewrite UINT_RANGE_val in *.
    destruct (Z.leb_spec (x + 0)%Z INT_MAX), (Z.leb_spec (x + 1)%Z INT_MAX);
      rewrite INT_MAX_val in *; lia.
Qed.

(** X1: of two [SetSFactor] calls in a row the second decides; the object is
    the one a single call with the second value gives. *)
Theorem SetSFactor_last_wins (self : ReaclibRate) (s1 s2 : R) :
  SetSFactor (SetSFactor self s1) s2 = SetSFactor self s2.
Proof.
  unfold SetSFactor, SetSFactor_calls, with_base.
  cbn [base numResonances_ z1_ z2_ mu_amu_].
  rewrite !run_cons, !run_nil. f_equal.
  apply exec_overwrite; reflexivity.
Qed.

(** X2: of two [SetResonance] calls in a row for the same identifier the
    second decides, whatever the identifier. *)
Theorem SetResonance_last_wins (self : ReaclibRate) (id : Z) (e1 w1 e2 w2 : R) :
  SetResonance (SetResonance self id e1 w1) id e2 w2 = SetResonance self id e2 w2.
Proof.
  unfold SetResonance, SetResonance_calls, with_base.
  cbn [base numResonances_ z1_ z2_ mu_amu_].
  destruct (id <=? numResonances_ self)%Z; [| reflexivity].
  rewrite !run_cons, !run_nil. f_equal.
  rewrite (exec_commute (exec (base self) _) _ _)
    by (cbn [call_ipar]; apply not_eq_sym, resonance_par_distinct).
  rewrite (exec_overwrite (base self)) by reflexivity.
  apply exec_overwrite; reflexivity.
Qed.

(** X3: [SetSFactor] and [SetResonance] can be called in either order. *)
Theorem SetSFactor_SetResonance_commute
    (self : ReaclibRate) (id : Z) (e w s : R) :
  laid_out self -> is_unsigned id ->
  SetSFactor (SetResonance self id e w) s = SetResonance (SetSFactor self s) id e w.
Proof.
  intros (Hn & _ & _) Hid. unfold is_unsigned in Hid.
  unfold SetSFactor, SetResonance, SetSFactor_calls, SetResonance_calls, with_base.
  cbn [base numResonances_ z1_ z2_ mu_amu_].
  destruct (Z.leb_spec id (numResonances_ self)) as [Hle | _];
    [| reflexivity].
  rewrite !resonance_par_exact by int_bounds.
  rewrite !run_cons, !run_nil. f_equal.
  rewrite (exec_commute (exec (base self) _) _ _) by (cbn [call_ipar]; lia).
  f_equal. apply exec_commute. cbn [call_ipar]. lia.
Qed.

Lemma SetSFactor_SetResonance_commute_witness :
  let m := ReaclibRate_ctor 1 6 1 0.92 in
  laid_out m /\ is_unsigned 0
  /\ SetSFactor (SetResonance m 0 0.1 1e-6) 0.5
     = SetResonance (SetSFactor m 0.5) 0 0.1 1e-6.
Proof.
  intros m.
  assert (H1 : laid_out m)
    by (apply laid_out_ctor; unfold fits_Int_t, INT_MAX; lia).
  assert (H2 : is_unsigned 0) by (unfold is_unsigned, UINT_RANGE; lia).
  split; [exact H1 |]. split; [exact H2 |].
  apply (SetSFactor_SetResonance_commute m 0 0.1 1e-6 0.5 H1 H2).
Defined.

(** X4: [SetResonance] calls for different identifiers can be exchanged. *)
Theorem SetResonance_commute
    (self : ReaclibRate) (id1 id2 : Z) (e1 w1 e2 w2 : R) :
  laid_out self -> is_unsigned id1 -> is_unsigned id2 -> id1 <> id2 ->
  SetResonance (SetResonance self id1 e1 w1) id2 e2 w2
  = SetResonance (SetResonance self id2 e2 w2) id1 e1 w1.
Proof.
  intros (Hn & _ & _) H1 H2 Hne. unfold is_unsigned in H1, H2.
  unfold SetResonance, SetResonance_calls, with_base.
  cbn [base numResonances_ z1_ z2_ mu_amu_].
  destruct (Z.leb_spec id1 (numResonances_ self)) as [Hle1 | _];
    destruct (Z.leb_spec id2 (numResonances_ self)) as [Hle2 | _];
    try reflexivity.
  rewrite !resonance_par_exact by int_bounds.
  rewrite !run_cons, !run_nil. f_equal.
  set (f := base self).
  set (a0 := FixParameter (7 * (id1 + 1) + 0) _).
  set (a1 := FixParameter (7 * (id1 + 1) + 1) _).
  set (b0 := FixParameter (7 * (id2 + 1) + 0) _).
  set (b1 := FixParameter (7 * (id2 + 1) + 1) _).
  assert (H00 : call_ipar a0 <> call_ipar b0) by (cbn [call_ipar a0 b0]; lia).
  assert (H01 : call_ipar a0 <> call_ipar b1) by (cbn [call_ipar a0 b1]; lia).
  assert (H10 : call_ipar a1 <> call_ipar b0) by (cbn [call_ipar a1 b0]; lia).
  assert (H11 : call_ipar a1 <> call_ipar b1) by (cbn [call_ipar a1 b1]; lia).
  rewrite (exec_commute (exec f a0) a1 b0 H10).
  rewrite (exec_commute f a0 b0 H00).
  rewrite (exec_commute (exec (exec f b0) a0) a1 b1 H11).
  rewrite (exec_commute (exec f b0) a0 b1 H01).
  reflexivity.
Qed.

Lemma SetResonance_commute_witness :
  let m := ReaclibRate_ctor 2 6 1 0.92 in
  laid_out m /\ is_unsigned 0 /\ is_unsigned 1 /\ 0%Z <> 1%Z
  /\ SetResonance (SetResonance m 0 0.1 1e-6) 1 0.2 1e-5
     = SetResonance (SetResonance m 1 0.2 1e-5) 0 0.1 1e-6.
Proof.
  intros m.
  assert (H1 : laid_out m)
    by (apply laid_out_ctor; unfold fits_Int_t, INT_MAX; lia).
  assert (H2 : is_unsigned 0) by (unfold is_unsigned, UINT_RANGE; lia).
  assert (H3 : is_unsigned 1) by (unfold is_unsigned, UINT_RANGE; lia).
  assert (H4 : 0%Z <> 1%Z) by lia.
  split; [exact H1 |]. split; [exact H2 |]. split; [exact H3 |].
  split; [exact H4 |].
  apply (SetResonance_commute m 0 1 0.1 1e-6 0.2 1e-5 H1 H2 H3 H4).
Defined.

End Composition.

(** ** What the setters leave alone *)

Section Frame.

Import TF1.
Open Scope R_scope.

Lemma invoke_is_run (self : ReaclibRate) (c : setter_call) :
  exists cs, invoke self c = with_base self (run cs (base self)).
Proof.
  destruct c as [s | id e w]; simpl.
  - exists (SetSFactor_calls self s). reflexivity.
  - exists (SetResonance_calls self id e w). reflexivity.
Qed.

Lemma IsFixed_run_mono (cs : list call) (f : t) (k : Z) :
  wf f -> IsFixed f k = true -> IsFixed (run cs f) k = true.
Proof.
  revert f. induction cs as [| c cs IH]; intros f Hf Hk; [exact Hk |].
  rewrite run_cons. apply IH; [apply wf_exec, Hf |].
  rewrite IsFixed_exec by exact Hf. rewrite Hk.
  destruct (_ && _ && _)%bool; reflexivity.
Qed.

(** X5: no sequence of setter calls frees a parameter that is fixed. *)
Theorem fixed_stays_fixed
    (self : ReaclibRate) (calls : list setter_call) (k : Z) :
  wf (base self) -> IsFixed (base self) k = true ->
  IsFixed (base (invoke_all calls self)) k = true.
Proof.
  revert self. induction calls as [| c calls IH]; intros self Hwf Hk;
    [exact Hk |].
  simpl. destruct (invoke_is_run self c) as [cs Heq].
  apply IH; rewrite Heq; cbn [base with_base].
  - apply wf_run, Hwf.
  - apply IsFixed_run_mono; assumption.
Qed.

Lemma fixed_stays_fixed_witness :
  let m := ReaclibRate_ctor 1 6 1 0.92 in
  let calls := [CallSetResonance 0 0.1 1e-6; CallSetSFactor 0.5] in
  wf (base m) /\ IsFixed (base m) 2 = true
  /\ IsFixed (base (invoke_all calls m)) 2 = true.
Proof.
  intros m calls.
  assert (H1 : wf (base m)) by apply wf_ctor.
  assert (H2 : IsFixed (base m) 2 = true) by reflexivity.
  split; [exact H1 |]. split; [exact H2 |].
  apply (fixed_stays_fixed m calls 2 H1 H2).
Defined.

Lemma setter_target_resonance (n id j : Z) :
  (0 <= id < n)%Z -> (0 <= j <= 1)%Z -> setter_target n (7 * (id + 1) + j) = true.
Proof.
  intros Hid Hj. unfold setter_target.
  assert (Hmod : ((7 * (id + 1) + j) mod 7 = j)%Z)
    by (symmetry; apply (Z.mod_unique_pos _ 7 (id + 1)); lia).
  rewrite Hmod. apply orb_true_iff. right.
  rewrite !andb_true_iff, !Z.leb_le, Z.ltb_lt. lia.
Qed.

(** The TF1 calls of a setter name a target, or an index past the end. *)
Lemma invoke_targets (self : ReaclibRate) (c : setter_call) :
  laid_out self -> setter_typed c ->
  exists cs,
    invoke self c = with_base self (run cs (base self))
    /\ Forall (fun tc =>
                 setter_target (numResonances_ self) (call_ipar tc) = true
                 \/ (7 * (numResonances_ self + 1) <= call_ipar tc)%Z) cs.
Proof.
  intros (Hn & _ & _) Hc. destruct c as [s | id e w]; simpl.
  - exists (SetSFactor_calls self s). split; [reflexivity |].
    constructor; [left; reflexivity | constructor].
  - exists (SetResonance_calls self id e w). split; [reflexivity |].
    simpl in Hc. unfold is_unsigned in Hc. unfold SetResonance_calls.
    destruct (Z.leb_spec id (numResonances_ self)) as [Hle | _];
      [| constructor].
    rewrite !resonance_par_exact by int_bounds.
    destruct (Z.eq_dec id (numResonances_ self)) as [-> | Hne].
    + constructor; [| constructor; [| constructor]];
        right; cbn [call_ipar]; lia.
    + constructor; [| constructor; [| constructor]];
        left; cbn [call_ipar]; apply setter_target_resonance; lia.
Qed.

Lemma invoke_all_untargeted
    (calls : list setter_call) (self : ReaclibRate) (k : Z) :
  laid_out self -> Forall setter_typed calls ->
  (0 <= k < 7 * (numResonances_ self + 1))%Z ->
  setter_target (numResonances_ self) k = false ->
  GetParameter (base (invoke_all calls self)) k = GetParameter (base self) k
  /\ IsFixed (base (invoke_all calls self)) k = IsFixed (base self) k.
Proof.
  intros Hself Hcalls. revert self Hself.
  induction Hcalls as [| c calls Hc Hrest IH]; intros self Hself Hk Ht;
    [split; reflexivity |].
  simpl. destruct (invoke_targets self c Hself Hc) as (cs & Heq & Hcs).
  assert (Hnext : laid_out (invoke self c))
    by (rewrite Heq; apply laid_out_with_base, Hself).
  assert (Hn : numResonances_ (invoke self c) = numResonances_ self)
    by (rewrite Heq; reflexivity).
  destruct (IH (invoke self c) Hnext) as [-> ->]; rewrite ?Hn; try assumption.
  rewrite Heq. cbn [base with_base]. destruct Hself as (_ & Hwf & _).
  assert (Hother : Forall (fun tc => call_ipar tc <> k) cs).
  { eapply List.Forall_impl; [| exact Hcs].
    intros tc [Htc | Htc] Habs; subst k; [congruence | lia]. }
  split.
  - apply GetParameter_run_other; assumption.
  - apply IsFixed_run_other; assumption.
Qed.

(** X6: a sequence of setter calls changes, at most, [a0] of the
    non-resonant block and [a0], [a1] of the resonance blocks; every other
    parameter keeps its value and its fixed flag. *)
Theorem setters_touch_only_a0_a1
    (self : ReaclibRate) (calls : list setter_call) (k : Z) :
  laid_out self -> Forall setter_typed calls ->
  (0 <= k < 7 * (numResonances_ self + 1))%Z ->
  setter_target (numResonances_ self) k = false ->
  GetParameter (base (invoke_all calls self)) k = GetParameter (base self) k
  /\ IsFixed (base (invoke_all calls self)) k = IsFixed (base self) k.
Proof. intros. apply invoke_all_untargeted; assumption. Qed.

Lemma setters_touch_only_a0_a1_witness :
  let m := ReaclibRate_ctor 1 6 1 0.92 in
  let calls := [CallSetResonance 0 0.1 1e-6; CallSetSFactor 0.5] in
  laid_out m /\ Forall setter_typed calls
  /\ (0 <= 1 < 7 * (numResonances_ m + 1))%Z
  /\ setter_target (numResonances_ m) 1 = false
  /\ GetParameter (base (invoke_all calls m)) 1 = GetParameter (base m) 1
  /\ IsFixed (base (invoke_all calls m)) 1 = IsFixed (base m) 1.
Proof.
  intros m calls.
  assert (H1 : laid_out m)
    by (apply laid_out_ctor; unfold fits_Int_t, INT_MAX; lia).
  assert (H2 : Forall setter_typed calls)
    by (repeat (constructor; [unfold setter_typed, is_unsigned, UINT_RANGE;
                              try exact I; lia |]); constructor).
  assert (H3 : (0 <= 1 < 7 * (numResonances_ m + 1))%Z) by (simpl; lia).
  assert (H4 : setter_target (numResonances_ m) 1 = false) by reflexivity.
  split; [exact H1 |]. split; [exact H2 |]. split; [exact H3 |].
  split; [exact H4 |].
  apply (setters_touch_only_a0_a1 m calls 1 H1 H2 H3 H4).
Defined.

(** X7: no sequence of setter calls changes what [GetReducedMass] returns. *)
Theorem setters_keep_reduced_mass
    (self : ReaclibRate) (calls : list setter_call) :
  laid_out self -> Forall setter_typed calls ->
  GetReducedMass (invoke_all calls self) = GetReducedMass self.
Proof.
  intros Hself Hcalls. unfold GetReducedMass.
  destruct (fields_invoke_all calls self) as (_ & -> & -> & _).
  destruct (invoke_all_untargeted calls self 2 Hself Hcalls) as [-> _];
    [destruct Hself as (Hn & _); int_bounds | reflexivity | reflexivity].
Qed.

Lemma setters_keep_reduced_mass_witness :
  let m := ReaclibRate_ctor 1 6 1 0.92 in
  let calls := [CallSetResonance 0 0.1 1e-6; CallSetSFactor 0.5] in
  laid_out m /\ Forall setter_typed calls
  /\ GetReducedMass (invoke_all calls m) = GetReducedMass m.
Proof.
  intros m calls.
  assert (H1 : laid_out m)
    by (apply laid_out_ctor; unfold fits_Int_t, INT_MAX; lia).
  assert (H2 : Forall setter_typed calls)
    by (repeat (constructor; [unfold setter_typed, is_unsigned, UINT_RANGE;
                              try exact I; lia |]); constructor).
  split; [exact H1 |]. split; [exact H2 |].
  apply (setters_keep_reduced_mass m calls H1 H2).
Defined.

(** X8: [SetResonance] does not change what [GetSFactor] returns. *)
Theorem SetResonance_keeps_SFactor (self : ReaclibRate) (id : Z) (e w : R) :
  laid_out self -> is_unsigned id ->
  GetSFactor (SetResonance self id e w) = GetSFactor self.
Proof.
  intros Hself Hid. unfold GetSFactor.
  rewrite GetReducedMass_SetResonance by assumption.
  rewrite GetParameter_SetResonance_nonresonant by (try assumption; lia).
  reflexivity.
Qed.

Lemma SetResonance_keeps_SFactor_witness :
  let m := SetSFactor (ReaclibRate_ctor 1 6 1 0.92) 0.5 in
  laid_out m /\ is_unsigned 0
  /\ GetSFactor (SetResonance m 0 0.1 1e-6) = GetSFactor m.
Proof.
  intros m.
  assert (H1 : laid_out m)
    by (apply laid_out_with_base, laid_out_ctor;
        unfold fits_Int_t, INT_MAX; lia).
  assert (H2 : is_unsigned 0) by (unfold is_unsigned, UINT_RANGE; lia).
  split; [exact H1 |]. split; [exact H2 |].
  apply (SetResonance_keeps_SFactor m 0 0.1 1e-6 H1 H2).
Defined.

End Frame.

(** ** What constructor and setters store *)

Section Effects.

Import TF1.
Open Scope R_scope.

(** X9: after construction parameter [k] of the non-resonant block holds
    [ln (b (z1 z2 mu)^(1/3))] for [a0], [-4.2486 (z1^2 z2^2 mu)^(1/3)] for
    [a2], [-2/3] for [a6] and 0 otherwise, with [a1], [a2], [a6] fixed; in
    every resonance block [a0] holds [ln (d mu^(-3/2))], [a1] holds
    [-11.6045], [a6] holds [-3/2], [a2] to [a5] hold 0, and [a2] to [a6]
    are fixed. *)
Theorem constructor_seeds (n z1 z2 : Z) (mu : R) (k : Z) :
  fits_Int_t n -> (0 <= k < 7 * (n + 1))%Z ->
  let m := ReaclibRate_ctor n z1 z2 mu in
  fNpar (base m) = (7 * (n + 1))%Z
  /\ GetParameter (base m) k =
       (if (k <? 7)%Z then nonresonant_seed z1 z2 mu k
        else resonance_seed mu (k mod 7))
  /\ IsFixed (base m) k =
       (if (k <? 7)%Z then nonresonant_fixed k else resonance_fixed (k mod 7)).
Proof.
  intros Hn Hk m. split; [apply fNpar_ctor, Hn |].
  split; [apply ctor_GetParameter | apply ctor_IsFixed]; assumption.
Qed.

Lemma constructor_seeds_witness :
  let m := ReaclibRate_ctor 2 6 1 0.92 in
  fits_Int_t 2 /\ (0 <= 15 < 7 * (2 + 1))%Z
  /\ fNpar (base m) = 21%Z
  /\ GetParameter (base m) 15 = -11.6045
  /\ IsFixed (base m) 15 = false.
Proof.
  intros m.
  assert (H1 : fits_Int_t 2) by (unfold fits_Int_t, INT_MAX; lia).
  assert (H2 : (0 <= 15 < 7 * (2 + 1))%Z) by lia.
  split; [exact H1 |]. split; [exact H2 |].
  exact (constructor_seeds 2 6 1 0.92 15 H1 H2).
Defined.

Lemma IsFixed_SetSFactor (self : ReaclibRate) (s : R) (k : Z) :
  laid_out self ->
  IsFixed (base (SetSFactor self s)) k =
    if (k =? 0)%Z then true else IsFixed (base self) k.
Proof.
  intros (Hn & Hwf & Hnp).
  unfold SetSFactor, SetSFactor_calls, with_base. cbn [base].
  rewrite run_cons, run_nil, IsFixed_exec by exact Hwf.
  cbn [call_ipar call_fixes].
  destruct (Z.eqb_spec 0 k) as [<- | Hne].
  - assert (Hc : CheckIndex (base self) 0 = true)
      by (apply CheckIndex_true; rewrite Hnp; int_bounds).
    rewrite Hc. reflexivity.
  - destruct (Z.eqb_spec k 0); [lia | reflexivity].
Qed.

(** X10: [SetSFactor(s)] stores [ln (b (z1 z2 mu)^(1/3) s)] in parameter 0
    and fixes it; every other parameter keeps its value and its flag. *)
Theorem SetSFactor_effect (self : ReaclibRate) (s : R) (k : Z) :
  laid_out self ->
  let m := SetSFactor self s in
  GetParameter (base m) 0
    = CMath.log (b_ * CMath.pow (z1z2 (z1_ self) (z2_ self) * mu_amu_ self) (1/3) * s)
  /\ IsFixed (base m) 0 = true
  /\ (k <> 0%Z ->
      GetParameter (base m) k = GetParameter (base self) k
      /\ IsFixed (base m) k = IsFixed (base self) k).
Proof.
  intros Hself m. unfold m.
  rewrite !GetParameter_SetSFactor, !IsFixed_SetSFactor by exact Hself.
  split; [reflexivity |]. split; [reflexivity |].
  intros Hk. destruct (Z.eqb_spec k 0); [contradiction | split; reflexivity].
Qed.

Lemma SetSFactor_effect_witness :
  let m0 := ReaclibRate_ctor 1 6 1 0.92 in
  laid_out m0
  /\ IsFixed (base m0) 0 = false
  /\ IsFixed (base (SetSFactor m0 0.5)) 0 = true.
Proof.
  intros m0.
  assert (H1 : laid_out m0)
    by (apply laid_out_ctor; unfold fits_Int_t, INT_MAX; lia).
  split; [exact H1 |]. split; [reflexivity |].
  exact (proj1 (proj2 (SetSFactor_effect m0 0.5 0 H1))).
Defined.

Lemma IsFixed_SetResonance (self : ReaclibRate) (id : Z) (e w : R) (k : Z) :
  laid_out self -> (0 <= id < numResonances_ self)%Z ->
  IsFixed (base (SetResonance self id e w)) k =
    if ((k =? 7 * (id + 1)) || (k =? 7 * (id + 1) + 1))%Z then true
    else IsFixed (base self) k.
Proof.
  intros (Hn & Hwf & Hnp) Hid.
  unfold SetResonance, SetResonance_calls, with_base. cbn [base].
  destruct (Z.leb_spec id (numResonances_ self)) as [_ | Hgt]; [| lia].
  rewrite !resonance_par_exact by int_bounds.
  rewrite !run_cons, run_nil.
  rewrite !IsFixed_exec by (repeat apply wf_exec; exact Hwf).
  rewrite !CheckIndex_exec. cbn [call_ipar call_fixes].
  destruct (CheckIndex (base self) k) eqn:Hk.
  - rewrite !andb_true_r. decide_eqb; reflexivity.
  - rewrite !andb_false_r. apply CheckIndex_false in Hk. rewrite Hnp in Hk.
    cbn [andb]. decide_eqb; reflexivity.
Qed.

(** X11: for a resonance that exists, [SetResonance(id, e, w)] stores
    [ln (d mu^(-3/2) w)] in parameter [7 (id+1)] and [-11.6045 e] in
    parameter [7 (id+1) + 1], fixes both, and leaves every other parameter
    and flag as it was. *)
Theorem SetResonance_effect (self : ReaclibRate) (id : Z) (e w : R) (k : Z) :
  laid_out self -> (0 <= id < numResonances_ self)%Z ->
  let m := SetResonance self id e w in
  GetParameter (base m) (7 * (id + 1))
    = CMath.log (d_ * CMath.pow (mu_amu_ self) (-3/2) * w)
  /\ GetParameter (base m) (7 * (id + 1) + 1) = -11.6045 * e
  /\ IsFixed (base m) (7 * (id + 1)) = true
  /\ IsFixed (base m) (7 * (id + 1) + 1) = true
  /\ (k <> (7 * (id + 1))%Z -> k <> (7 * (id + 1) + 1)%Z ->
      GetParameter (base m) k = GetParameter (base self) k
      /\ IsFixed (base m) k = IsFixed (base self) k).
Proof.
  intros Hself Hid m. unfold m.
  rewrite !GetParameter_SetResonance, !IsFixed_SetResonance by assumption.
  rewrite !Z.eqb_refl.
  replace (7 * (id + 1) + 1 =? 7 * (id + 1))%Z with false
    by (symmetry; apply Z.eqb_neq; lia).
  rewrite orb_true_r.
  split; [reflexivity |]. split; [reflexivity |].
  split; [reflexivity |]. split; [reflexivity |].
  intros H0 H1.
  destruct (Z.eqb_spec k (7 * (id + 1))); [contradiction |].
  destruct (Z.eqb_spec k (7 * (id + 1) + 1)); [contradiction |].
  split; reflexivity.
Qed.

Lemma SetResonance_effect_witness :
  let m0 := ReaclibRate_ctor 2 6 1 0.92 in
  laid_out m0 /\ (0 <= 1 < numResonances_ m0)%Z
  /\ GetParameter (base (SetResonance m0 1 0.2 1e-5)) (7 * (1 + 1) + 1)
     = -11.6045 * 0.2.
Proof.
  intros m0.
  assert (H1 : laid_out m0)
    by (apply laid_out_ctor; unfold fits_Int_t, INT_MAX; lia).
  assert (H2 : (0 <= 1 < numResonances_ m0)%Z) by (simpl; lia).
  split; [exact H1 |]. split; [exact H2 |].
  exact (proj1 (proj2 (SetResonance_effect m0 1 0.2 1e-5 0 H1 H2))).
Defined.

(** X12: when the product of the charges is 0 on 32 bits, the constructor
    stores 0 in [a2], whatever the reduced mass. *)
Theorem wrapped_product_loses_mass (n z1 z2 : Z) (mu : R) :
  fits_Int_t n -> wrap (z1 * z2) = 0%Z ->
  GetParameter (base (ReaclibRate_ctor n z1 z2 mu)) 2 = 0.
Proof.
  intros Hn Hw. rewrite ctor_GetParameter by int_bounds.
  change (2 <? 7)%Z with true. cbv iota. unfold nonresonant_seed.
  change (2 =? 0)%Z with false. change (2 =? 2)%Z with true. cbv iota.
  unfold z1z2. rewrite Hw, pow_square.
  replace (0 * 0 * mu) with 0 by ring.
  rewrite pow_zero_third. ring.
Qed.

Lemma wrapped_product_loses_mass_witness :
  fits_Int_t 0 /\ wrap (131072 * 32768) = 0%Z
  /\ GetParameter (base (ReaclibRate_ctor 0 131072 32768 3)) 2 = 0.
Proof.
  assert (H1 : fits_Int_t 0) by (unfold fits_Int_t, INT_MAX; lia).
  assert (H2 : wrap (131072 * 32768) = 0%Z) by reflexivity.
  split; [exact H1 |]. split; [exact H2 |].
  apply (wrapped_product_loses_mass 0 131072 32768 3 H1 H2).
Defined.

End Effects.

(** ** More round trips *)

Section RoundTrips.

Import TF1.
Open Scope R_scope.

Lemma strength_inverts_a0 (mu w : R) :
  0 < mu -> 0 < w ->
  exp (CMath.log (d_ * CMath.pow mu (-3/2) * w)) / d_ / CMath.pow mu (-3/2) = w.
Proof.
  intros Hmu Hw. pose proof d_positive as Hd.
  pose proof (pow_gt_0 mu (-3/2) Hmu) as Hp.
  unfold CMath.log. rewrite exp_ln.
  - field. split; lra.
  - apply Rmult_lt_0_compat; [apply Rmult_lt_0_compat |]; assumption.
Qed.

(** X13: what [SetResonance(id, e, w)] stores is what the getters return for
    the identifier [id + 1]: the setter writes block [id + 1] and the
    getters called with [id + 1] read that block. *)
Theorem resonance_read_back_one_up
    (n z1 z2 : Z) (mu : R) (calls : list setter_call) (id : Z) (e w : R) :
  fits_Int_t n -> wrap (z1 * z2) <> 0%Z -> 0 < mu ->
  Forall setter_typed calls -> (0 <= id < n)%Z -> 0 < w ->
  let m := SetResonance (invoke_all calls (ReaclibRate_ctor n z1 z2 mu)) id e w in
  GetResonanceEnergy m (id + 1) = e /\ GetResonanceStrength m (id + 1) = w.
Proof.
  intros Hn Hz Hmu Hcalls Hid Hw.
  set (m0 := invoke_all calls (ReaclibRate_ctor n z1 z2 mu)). intros m.
  assert (Hm0 : laid_out m0)
    by (apply laid_out_invoke_all; [apply laid_out_ctor, Hn | exact Hcalls]).
  destruct (fields_invoke_all calls (ReaclibRate_ctor n z1 z2 mu))
    as (Hn0 & Hz1 & Hz2 & Hmu0).
  fold m0 in Hn0, Hz1, Hz2, Hmu0.
  cbn [numResonances_ z1_ z2_ mu_amu_ ReaclibRate_ctor] in Hn0, Hz1, Hz2, Hmu0.
  assert (Hunsigned : is_unsigned id)
    by (unfold is_unsigned; int_bounds).
  split.
  - apply GetResonanceEnergy_one_block_up; [exact Hm0 | rewrite Hn0; exact Hid].
  - unfold GetResonanceStrength, m.
    change (numResonances_ (SetResonance m0 id e w)) with (numResonances_ m0).
    rewrite Hn0.
    replace (id + 1 >? n)%Z with false
      by (symmetry; rewrite Z.gtb_ltb; apply Z.ltb_ge; lia).
    cbv zeta.
    rewrite (getter_par_exact n) by (try assumption; lia).
    rewrite GetParameter_SetResonance by (try assumption; lia).
    replace (7 * (id + 1) + 0 =? 7 * (id + 1))%Z with true
      by (symmetry; apply Z.eqb_eq; lia).
    rewrite GetReducedMass_SetResonance by assumption.
    rewrite (GetReducedMass_of_a2 m0)
      by (rewrite ?Hz1, ?Hz2, ?Hmu0;
          first [ assumption | apply a2_after_setters; assumption ]).
    rewrite Hmu0. apply strength_inverts_a0; assumption.
Qed.

Lemma resonance_read_back_one_up_witness :
  let m := SetResonance (invoke_all [CallSetSFactor 0.5] (ReaclibRate_ctor 2 6 1 0.92))
             0 0.1 1e-6 in
  fits_Int_t 2 /\ wrap (6 * 1) <> 0%Z /\ 0 < 0.92
  /\ Forall setter_typed [CallSetSFactor 0.5] /\ (0 <= 0 < 2)%Z /\ 0 < 1e-6
  /\ GetResonanceEnergy m (0 + 1) = 0.1 /\ GetResonanceStrength m (0 + 1) = 1e-6.
Proof.
  intros m.
  assert (H1 : fits_Int_t 2) by (unfold fits_Int_t, INT_MAX; lia).
  assert (H2 : wrap (6 * 1) <> 0%Z) by (vm_compute; discriminate).
  assert (H3 : 0 < 0.92) by lra.
  assert (H4 : Forall setter_typed [CallSetSFactor 0.5])
    by (constructor; [exact I | constructor]).
  assert (H5 : (0 <= 0 < 2)%Z) by lia.
  assert (H6 : 0 < 1e-6) by lra.
  split; [exact H1 |]. split; [exact H2 |]. split; [exact H3 |].
  split; [exact H4 |]. split; [exact H5 |]. split; [exact H6 |].
  exact (resonance_read_back_one_up 2 6 1 0.92 _ 0 0.1 1e-6 H1 H2 H3 H4 H5 H6).
Defined.

(** X14: right after construction the getters return energy 1 and strength
    1 for every identifier from 1 to [numResonances]: they read the seeds
    [-11.6045] and [ln (d mu^(-3/2))] of a resonance block. *)
Theorem unset_resonance_reads_one (n z1 z2 : Z) (mu : R) (id : Z) :
  fits_Int_t n -> wrap (z1 * z2) <> 0%Z -> 0 < mu -> (1 <= id <= n)%Z ->
  let m := ReaclibRate_ctor n z1 z2 mu in
  GetResonanceEnergy m id = 1 /\ GetResonanceStrength m id = 1.
Proof.
  intros Hn Hz Hmu Hid m.
  assert (Hguard : (id >? n)%Z = false)
    by (rewrite Z.gtb_ltb; apply Z.ltb_ge; lia).
  assert (Hm1 : ((7 * id + 1) mod 7 = 1)%Z)
    by (symmetry; apply (Z.mod_unique_pos _ 7 id); lia).
  assert (Hm0 : ((7 * id + 0) mod 7 = 0)%Z)
    by (symmetry; apply (Z.mod_unique_pos _ 7 id); lia).
  split.
  - unfold GetResonanceEnergy, m. cbn [numResonances_ ReaclibRate_ctor].
    rewrite Hguard. fold (ReaclibRate_ctor n z1 z2 mu).
    rewrite (getter_par_exact n) by (try assumption; lia).
    rewrite ctor_GetParameter by (try assumption; lia).
    replace (7 * id + 1 <? 7)%Z with false by (symmetry; apply Z.ltb_ge; lia).
    rewrite Hm1. unfold resonance_seed.
    change (1 =? 0)%Z with false. change (1 =? 1)%Z with true. cbv iota.
    field. lra.
  - unfold GetResonanceStrength, m. cbn [numResonances_ ReaclibRate_ctor].
    rewrite Hguard. fold (ReaclibRate_ctor n z1 z2 mu). cbv zeta.
    rewrite (getter_par_exact n) by (try assumption; lia).
    rewrite ctor_GetParameter by (try assumption; lia).
    replace (7 * id + 0 <? 7)%Z with false by (symmetry; apply Z.ltb_ge; lia).
    rewrite Hm0. unfold resonance_seed.
    change (0 =? 0)%Z with true. cbv iota.
    rewrite (GetReducedMass_of_a2 (ReaclibRate_ctor n z1 z2 mu))
      by (cbn [z1_ z2_ mu_amu_ ReaclibRate_ctor];
          first [ assumption
                | apply (a2_after_setters n z1 z2 mu []);
                  [assumption | constructor] ]).
    cbn [mu_amu_ ReaclibRate_ctor].
    pose proof (strength_inverts_a0 mu 1 Hmu ltac:(lra)) as Hs.
    rewrite Rmult_1_r in Hs. exact Hs.
Qed.

Lemma unset_resonance_reads_one_witness :
  let m := ReaclibRate_ctor 2 6 1 0.92 in
  fits_Int_t 2 /\ wrap (6 * 1) <> 0%Z /\ 0 < 0.92 /\ (1 <= 2 <= 2)%Z
  /\ GetResonanceEnergy m 2 = 1 /\ GetResonanceStrength m 2 = 1.
Proof.
  intros m.
  assert (H1 : fits_Int_t 2) by (unfold fits_Int_t, INT_MAX; lia).
  assert (H2 : wrap (6 * 1) <> 0%Z) by (vm_compute; discriminate).
  assert (H3 : 0 < 0.92) by lra.
  assert (H4 : (1 <= 2 <= 2)%Z) by lia.
  split; [exact H1 |]. split; [exact H2 |]. split; [exact H3 |].
  split; [exact H4 |].
  exact (unset_resonance_reads_one 2 6 1 0.92 2 H1 H2 H3 H4).
Defined.

End RoundTrips.

(** ** The rate of an object built by constructor and setters *)

Section ModelRate.

Import TF1.
Open Scope R_scope.

Lemma at_index_GetParameter (f : t) (k : Z) :
  wf f -> (0 <= k)%Z -> at_index (fParams f) k = GetParameter f k.
Proof.
  intros [Hlen _] Hk. unfold at_index, GetParameter.
  destruct (CheckIndex f k) eqn:Hc; [reflexivity |].
  apply CheckIndex_false in Hc.
  rewrite lookup_ge_None_2 by lia. reflexivity.
Qed.

(** The coefficients of block [i] of an object, as [Evaluate] reads them
    from the object's own vector. *)
Lemma component_of_object (self : ReaclibRate) (t9 : R) (i : Z) :
  laid_out self -> (0 <= i <= numResonances_ self)%Z -> 0 < t9 ->
  let G := GetParameter (base self) in
  component t9 (fParams (base self)) i =
    G (7 * i)%Z + G (7 * i + 6)%Z * ln t9
    + G (7 * i + 1)%Z * Rpower t9 (-1)
    + G (7 * i + 2)%Z * Rpower t9 (-1/3)
    + G (7 * i + 3)%Z * Rpower t9 (1/3)
    + G (7 * i + 4)%Z * Rpower t9 1
    + G (7 * i + 5)%Z * Rpower t9 (5/3).
Proof.
  intros (Hn & Hwf & _) Hi Ht9 G. unfold component. cbn [fold_left].
  rewrite !(eval_index_exact (numResonances_ self)) by (try assumption; lia).
  rewrite !at_index_GetParameter by (try assumption; lia).
  rewrite !pow_positive_base by exact Ht9.
  rewrite Z.add_0_r. unfold CMath.log. fold G.
  replace ((2 * 1 - 5) / 3) with (-1) by lra.
  replace ((2 * 2 - 5) / 3) with (-1/3) by lra.
  replace ((2 * 3 - 5) / 3) with (1/3) by lra.
  replace ((2 * 4 - 5) / 3) with 1 by lra.
  replace ((2 * 5 - 5) / 3) with (5/3) by lra.
  ring.
Qed.

Lemma Rpower_minus_1 (x : R) : 0 < x -> Rpower x (-1) = / x.
Proof.
  intros Hx. replace (-1) with (- (1)) by lra.
  rewrite Rpower_Ropp, Rpower_1 by exact Hx. reflexivity.
Qed.

(** What the coefficients other than [a0], [a1] hold after any sequence of
    setter calls. *)
Lemma untargeted_after_setters
    (n z1 z2 : Z) (mu : R) (calls : list setter_call) (k : Z) :
  fits_Int_t n -> Forall setter_typed calls ->
  (0 <= k < 7 * (n + 1))%Z -> setter_target n k = false ->
  GetParameter (base (invoke_all calls (ReaclibRate_ctor n z1 z2 mu))) k =
    if (k <? 7)%Z then nonresonant_seed z1 z2 mu k
    else resonance_seed mu (k mod 7).
Proof.
  intros Hn Hcalls Hk Ht.
  destruct (invoke_all_untargeted calls (ReaclibRate_ctor n z1 z2 mu) k
              (laid_out_ctor n z1 z2 mu Hn) Hcalls Hk Ht) as [-> _].
  apply ctor_GetParameter; assumption.
Qed.

Lemma setter_target_other (n i j : Z) :
  (0 <= i)%Z -> (2 <= j <= 6)%Z -> setter_target n (7 * i + j) = false.
Proof.
  intros Hi Hj. unfold setter_target.
  assert (Hmod : ((7 * i + j) mod 7 = j)%Z)
    by (symmetry; apply (Z.mod_unique_pos _ 7 i); lia).
  rewrite Hmod.
  replace (7 * i + j =? 0)%Z with false by (symmetry; apply Z.eqb_neq; lia).
  replace (j <=? 1)%Z with false by (symmetry; apply Z.leb_gt; lia).
  rewrite andb_false_r. reflexivity.
Qed.

(** Block 0 after any sequence of setter calls. *)
Lemma nonresonant_component
    (n z1 z2 : Z) (mu : R) (calls : list setter_call) (t9 : R) :
  fits_Int_t n -> Forall setter_typed calls -> 0 < t9 ->
  let m := invoke_all calls (ReaclibRate_ctor n z1 z2 mu) in
  exp (component t9 (fParams (base m)) 0) = rate_term (base m) t9 0.
Proof.
  intros Hn Hcalls Ht9 m.
  assert (Hm : laid_out m)
    by (apply laid_out_invoke_all; [apply laid_out_ctor, Hn | exact Hcalls]).
  assert (Hnm : numResonances_ m = n)
    by (apply (fields_invoke_all calls (ReaclibRate_ctor n z1 z2 mu))).
  rewrite (component_of_object m t9 0 Hm) by (try assumption; rewrite Hnm; int_bounds).
  cbv zeta. change (7 * 0)%Z with 0%Z. rewrite !Z.add_0_l.
  unfold m.
  rewrite (untargeted_after_setters n z1 z2 mu calls 1) by (try assumption; try reflexivity; int_bounds).
  rewrite (untargeted_after_setters n z1 z2 mu calls 3) by (try assumption; try reflexivity; int_bounds).
  rewrite (untargeted_after_setters n z1 z2 mu calls 4) by (try assumption; try reflexivity; int_bounds).
  rewrite (untargeted_after_setters n z1 z2 mu calls 5) by (try assumption; try reflexivity; int_bounds).
  rewrite (untargeted_after_setters n z1 z2 mu calls 6) by (try assumption; try reflexivity; int_bounds).
  cbn [Z.ltb Z.compare Pos.compare Pos.compare_cont nonresonant_seed Z.eqb Pos.eqb].
  unfold rate_term.
  set (a0 := GetParameter _ 0). set (a2 := GetParameter _ 2).
  set (r := Rpower t9 (-1/3)).
  unfold Rpower. rewrite <- !exp_plus. f_equal. ring.
Qed.

(** A resonance block after any sequence of setter calls. *)
Lemma resonance_component
    (n z1 z2 : Z) (mu : R) (calls : list setter_call) (t9 : R) (i : nat) :
  fits_Int_t n -> Forall setter_typed calls -> 0 < t9 ->
  (1 <= Z.of_nat i <= n)%Z ->
  let m := invoke_all calls (ReaclibRate_ctor n z1 z2 mu) in
  exp (component t9 (fParams (base m)) (Z.of_nat i)) = rate_term (base m) t9 i.
Proof.
  intros Hn Hcalls Ht9 Hi m.
  assert (Hm : laid_out m)
    by (apply laid_out_invoke_all; [apply laid_out_ctor, Hn | exact Hcalls]).
  assert (Hnm : numResonances_ m = n)
    by (apply (fields_invoke_all calls (ReaclibRate_ctor n z1 z2 mu))).
  rewrite (component_of_object m t9 (Z.of_nat i) Hm)
    by (try assumption; rewrite Hnm; lia).
  cbv zeta. unfold m.
  assert (Hseed : forall j : Z, (2 <= j <= 6)%Z ->
            GetParameter (base (invoke_all calls (ReaclibRate_ctor n z1 z2 mu)))
              (7 * Z.of_nat i + j) = resonance_seed mu j).
  { intros j Hj.
    rewrite untargeted_after_setters
      by (try assumption; try (apply setter_target_other; lia); lia).
    replace (7 * Z.of_nat i + j <? 7)%Z with false
      by (symmetry; apply Z.ltb_ge; lia).
    f_equal. symmetry. apply (Z.mod_unique_pos _ 7 (Z.of_nat i)); lia. }
  rewrite (Hseed 2%Z), (Hseed 3%Z), (Hseed 4%Z), (Hseed 5%Z), (Hseed 6%Z) by lia.
  unfold resonance_seed.
  cbn [Z.eqb Pos.eqb].
  destruct i as [| i']; [lia |]. unfold rate_term.
  set (a0 := GetParameter _ (7 * Z.of_nat (S i'))).
  set (a1 := GetParameter _ (7 * Z.of_nat (S i') + 1)).
  rewrite Rpower_minus_1 by exact Ht9.
  unfold Rpower, Rdiv. rewrite <- !exp_plus. f_equal. ring.
Qed.

(** X16: for an object made by the constructor and any sequence of setter
    calls, [Evaluate] applied to the object's own parameter vector is the
    sum of a non-resonant term [exp a0 * t9^(-2/3) * exp (a2 * t9^(-1/3))]
    and, for each resonance block, a term
    [exp a0 * t9^(-3/2) * exp (a1 / t9)]. *)
Theorem rate_of_object
    (n z1 z2 : Z) (mu : R) (calls : list setter_call) (t9 : R) :
  fits_Int_t n -> Forall setter_typed calls -> 0 < t9 ->
  let m := invoke_all calls (ReaclibRate_ctor n z1 z2 mu) in
  Evaluate m t9 (fParams (base m)) = sum_f_R0 (rate_term (base m) t9) (Z.to_nat n).
Proof.
  intros Hn Hcalls Ht9 m.
  assert (Hnm : numResonances_ m = n)
    by (apply (fields_invoke_all calls (ReaclibRate_ctor n z1 z2 mu))).
  unfold Evaluate. rewrite Hnm, (counter_blocks _ Hn).
  apply (accumulate_is_sum
           (fun i => exp (component t9 (fParams (base m)) i))).
  intros i Hi. destruct i as [| i'].
  - apply nonresonant_component; assumption.
  - apply resonance_component; try assumption. unfold fits_Int_t in Hn. lia.
Qed.

Lemma rate_of_object_witness :
  let m := invoke_all [CallSetSFactor 0.5; CallSetResonance 0 0.1 1e-6]
             (ReaclibRate_ctor 1 6 1 0.92) in
  fits_Int_t 1
  /\ Forall setter_typed [CallSetSFactor 0.5; CallSetResonance 0 0.1 1e-6]
  /\ 0 < 1
  /\ Evaluate m 1 (fParams (base m)) = sum_f_R0 (rate_term (base m) 1) 1.
Proof.
  intros m.
  assert (H1 : fits_Int_t 1) by (unfold fits_Int_t, INT_MAX; lia).
  assert (H2 : Forall setter_typed
                 [CallSetSFactor 0.5; CallSetResonance 0 0.1 1e-6])
    by (repeat (constructor; [unfold setter_typed, is_unsigned, UINT_RANGE;
                              try exact I; lia |]); constructor).
  assert (H3 : 0 < 1) by lra.
  split; [exact H1 |]. split; [exact H2 |]. split; [exact H3 |].
  exact (rate_of_object 1 6 1 0.92 _ 1 H1 H2 H3).
Defined.

Lemma invoke_all_snoc (calls : list setter_call) (c : setter_call)
    (self : ReaclibRate) :
  invoke_all (calls ++ [c]) self = invoke (invoke_all calls self) c.
Proof. unfold invoke_all. rewrite fold_left_app. reflexivity. Qed.

(** X17: after [SetSFactor(s)] the non-resonant term of the rate is
    [b (z1 z2 mu)^(1/3) s * t9^(-2/3)
     * exp (-4.2486 (z1^2 z2^2 mu)^(1/3) * t9^(-1/3))]. *)
Theorem nonresonant_term_of_SFactor
    (n z1 z2 : Z) (mu : R) (calls : list setter_call) (s t9 : R) :
  fits_Int_t n -> wrap (z1 * z2) <> 0%Z -> 0 < mu ->
  Forall setter_typed calls -> 0 < s -> 0 < t9 ->
  let m := SetSFactor (invoke_all calls (ReaclibRate_ctor n z1 z2 mu)) s in
  exp (component t9 (fParams (base m)) 0) =
    b_ * CMath.pow (z1z2 z1 z2 * mu) (1/3) * s * Rpower t9 (-2/3)
    * exp (-4.2486 * CMath.pow (CMath.pow (z1z2 z1 z2) 2 * mu) (1/3)
           * Rpower t9 (-1/3)).
Proof.
  intros Hn Hz Hmu Hcalls Hs Ht9 m.
  assert (Hall : Forall setter_typed (calls ++ [CallSetSFactor s]))
    by (apply Forall_app; split; [exact Hcalls | constructor; [exact I | constructor]]).
  assert (Hm : m = invoke_all (calls ++ [CallSetSFactor s])
                     (ReaclibRate_ctor n z1 z2 mu))
    by (rewrite invoke_all_snoc; reflexivity).
  rewrite Hm.
  rewrite (nonresonant_component n z1 z2 mu _ t9 Hn Hall Ht9).
  unfold rate_term.
  rewrite (a2_after_setters n z1 z2 mu _ Hn Hall).
  rewrite invoke_all_snoc. cbn [invoke].
  set (m0 := invoke_all calls (ReaclibRate_ctor n z1 z2 mu)).
  assert (Hm0 : laid_out m0)
    by (apply laid_out_invoke_all; [apply laid_out_ctor, Hn | exact Hcalls]).
  destruct (fields_invoke_all calls (ReaclibRate_ctor n z1 z2 mu))
    as (_ & Hz1 & Hz2 & Hmu0).
  fold m0 in Hz1, Hz2, Hmu0.
  cbn [z1_ z2_ mu_amu_ ReaclibRate_ctor] in Hz1, Hz2, Hmu0.
  rewrite GetParameter_SetSFactor by exact Hm0.
  change (0 =? 0)%Z with true. cbv iota. rewrite Hz1, Hz2, Hmu0.
  unfold CMath.log. rewrite exp_ln.
  - unfold nonresonant_seed. change (2 =? 0)%Z with false.
    change (2 =? 2)%Z with true. cbv iota. reflexivity.
  - pose proof b_positive. pose proof (z1z2_positive _ _ Hz).
    apply Rmult_lt_0_compat; [apply Rmult_lt_0_compat |]; try assumption.
    apply pow_gt_0, Rmult_lt_0_compat; assumption.
Qed.

Lemma nonresonant_term_of_SFactor_witness :
  let m := SetSFactor (invoke_all [] (ReaclibRate_ctor 0 6 1 0.92)) 0.5 in
  fits_Int_t 0 /\ wrap (6 * 1) <> 0%Z /\ 0 < 0.92
  /\ Forall setter_typed [] /\ 0 < 0.5 /\ 0 < 1
  /\ exp (component 1 (fParams (base m)) 0) =
       b_ * CMath.pow (z1z2 6 1 * 0.92) (1/3) * 0.5 * Rpower 1 (-2/3)
       * exp (-4.2486 * CMath.pow (CMath.pow (z1z2 6 1) 2 * 0.92) (1/3)
              * Rpower 1 (-1/3)).
Proof.
  intros m.
  assert (H1 : fits_Int_t 0) by (unfold fits_Int_t, INT_MAX; lia).
  assert (H2 : wrap (6 * 1) <> 0%Z) by (vm_compute; discriminate).
  assert (H3 : 0 < 0.92) by lra.
  assert (H4 : Forall setter_typed []) by constructor.
  assert (H5 : 0 < 0.5) by lra.
  assert (H6 : 0 < 1) by lra.
  split; [exact H1 |]. split; [exact H2 |]. split; [exact H3 |].
  split; [exact H4 |]. split; [exact H5 |]. split; [exact H6 |].
  exact (nonresonant_term_of_SFactor 0 6 1 0.92 [] 0.5 1 H1 H2 H3 H4 H5 H6).
Defined.

(** X18: after [SetResonance(id, e, w)] for a resonance that exists, term
    [id + 1] of the rate is the narrow-resonance term
    [d mu^(-3/2) w * t9^(-3/2) * exp (-11.6045 e / t9)]: [Evaluate] reads
    the block the setter writes. *)
Theorem narrow_resonance_term
    (n z1 z2 : Z) (mu : R) (calls : list setter_call) (id : Z) (e w t9 : R) :
  fits_Int_t n -> 0 < mu -> Forall setter_typed calls ->
  (0 <= id < n)%Z -> 0 < w -> 0 < t9 ->
  let m := SetResonance (invoke_all calls (ReaclibRate_ctor n z1 z2 mu)) id e w in
  exp (component t9 (fParams (base m)) (id + 1)) =
    d_ * CMath.pow mu (-3/2) * w * Rpower t9 (-3/2) * exp (-11.6045 * e / t9).
Proof.
  intros Hn Hmu Hcalls Hid Hw Ht9 m.
  assert (Hu : is_unsigned id) by (unfold is_unsigned; int_bounds).
  assert (Hall : Forall setter_typed (calls ++ [CallSetResonance id e w]))
    by (apply Forall_app; split;
        [exact Hcalls | constructor; [exact Hu | constructor]]).
  assert (Hm : m = invoke_all (calls ++ [CallSetResonance id e w])
                     (ReaclibRate_ctor n z1 z2 mu))
    by (rewrite invoke_all_snoc; reflexivity).
  rewrite Hm.
  replace (id + 1)%Z with (Z.of_nat (Z.to_nat (id + 1))) by lia.
  rewrite (resonance_component n z1 z2 mu _ t9 _ Hn Hall Ht9) by lia.
  replace (Z.to_nat (id + 1)) with (S (Z.to_nat id)) by lia.
  unfold rate_term.
  replace (Z.of_nat (S (Z.to_nat id))) with (id + 1)%Z by lia.
  rewrite invoke_all_snoc. cbn [invoke].
  set (m0 := invoke_all calls (ReaclibRate_ctor n z1 z2 mu)).
  assert (Hm0 : laid_out m0)
    by (apply laid_out_invoke_all; [apply laid_out_ctor, Hn | exact Hcalls]).
  destruct (fields_invoke_all calls (ReaclibRate_ctor n z1 z2 mu))
    as (Hn0 & _ & _ & Hmu0).
  fold m0 in Hn0, Hmu0.
  cbn [numResonances_ mu_amu_ ReaclibRate_ctor] in Hn0, Hmu0.
  rewrite !GetParameter_SetResonance by (try assumption; rewrite Hn0; lia).
  rewrite Z.eqb_refl.
  replace (7 * (id + 1) + 1 =? 7 * (id + 1))%Z with false
    by (symmetry; apply Z.eqb_neq; lia).
  rewrite Z.eqb_refl, Hmu0.
  unfold CMath.log. rewrite exp_ln.
  - reflexivity.
  - pose proof d_positive. pose proof (pow_gt_0 mu (-3/2) Hmu).
    apply Rmult_lt_0_compat; [apply Rmult_lt_0_compat |]; assumption.
Qed.

Lemma narrow_resonance_term_witness :
  let m := SetResonance (invoke_all [] (ReaclibRate_ctor 1 6 1 0.92)) 0 0.1 1e-6 in
  fits_Int_t 1 /\ 0 < 0.92 /\ Forall setter_typed [] /\ (0 <= 0 < 1)%Z
  /\ 0 < 1e-6 /\ 0 < 2
  /\ exp (component 2 (fParams (base m)) (0 + 1)) =
       d_ * CMath.pow 0.92 (-3/2) * 1e-6 * Rpower 2 (-3/2)
       * exp (-11.6045 * 0.1 / 2).
Proof.
  intros m.
  assert (H1 : fits_Int_t 1) by (unfold fits_Int_t, INT_MAX; lia).
  assert (H2 : 0 < 0.92) by lra.
  assert (H3 : Forall setter_typed []) by constructor.
  assert (H4 : (0 <= 0 < 1)%Z) by lia.
  assert (H5 : 0 < 1e-6) by lra.
  assert (H6 : 0 < 2) by lra.
  split; [exact H1 |]. split; [exact H2 |]. split; [exact H3 |].
  split; [exact H4 |]. split; [exact H5 |]. split; [exact H6 |].
  exact (narrow_resonance_term 1 6 1 0.92 [] 0 0.1 1e-6 2 H1 H2 H3 H4 H5 H6).
Defined.

End ModelRate.

(** ** The sign of the rate, with the underflow of [exp] *)

Section Underflow.

Open Scope R_scope.

Lemma exp_binary64_nonneg (x : R) : 0 <= exp_binary64 x.
Proof.
  unfold exp_binary64. destruct (Rlt_dec (exp x) (/ 2 ^ 1075)); [lra |].
  left. apply exp_pos.
Qed.

Lemma exp_binary64_exact (x : R) :
  / 2 ^ 1075 <= exp x -> exp_binary64 x = exp x.
Proof.
  intros Hx. unfold exp_binary64.
  destruct (Rlt_dec (exp x) (/ 2 ^ 1075)); [lra | reflexivity].
Qed.

Lemma exp_binary64_underflow (x : R) :
  exp x < / 2 ^ 1075 -> exp_binary64 x = 0.
Proof.
  intros Hx. unfold exp_binary64.
  destruct (Rlt_dec (exp x) (/ 2 ^ 1075)); [reflexivity | contradiction].
Qed.

Lemma exp_binary64_positive (x : R) :
  0 < exp_binary64 x <-> / 2 ^ 1075 <= exp x.
Proof.
  split.
  - intros Hpos. destruct (Rlt_le_dec (exp x) (/ 2 ^ 1075)) as [Hlt | Hle];
      [| exact Hle].
    rewrite (exp_binary64_underflow x Hlt) in Hpos. lra.
  - intros Hx. rewrite (exp_binary64_exact x Hx). apply exp_pos.
Qed.

(** An accumulation of terms that are not negative. *)
Lemma accumulate_ge (g : Z -> R) (l : list Z) (acc : R) :
  (forall i, 0 <= g i) -> acc <= fold_left (fun r i => r + g i) l acc.
Proof.
  intros Hg. revert acc. induction l as [| i l IH]; intros acc; simpl; [lra |].
  specialize (IH (acc + g i)). specialize (Hg i). lra.
Qed.

Lemma accumulate_positive (g : Z -> R) (l : list Z) (acc : R) (j : Z) :
  (forall i, 0 <= g i) -> 0 <= acc -> In j l -> 0 < g j ->
  0 < fold_left (fun r i => r + g i) l acc.
Proof.
  intros Hg. revert acc. induction l as [| i l IH]; intros acc Hacc Hj Hpos;
    [contradiction |].
  simpl. destruct Hj as [-> | Hj].
  - pose proof (accumulate_ge g l (acc + g j) Hg). lra.
  - apply IH; try assumption. specialize (Hg i). lra.
Qed.

Lemma accumulate_zero (g : Z -> R) (l : list Z) (acc : R) :
  (forall i, In i l -> g i = 0) -> fold_left (fun r i => r + g i) l acc = acc.
Proof.
  revert acc. induction l as [| i l IH]; intros acc Hg; [reflexivity |].
  simpl. rewrite IH by (intros k Hk; apply Hg; right; exact Hk).
  rewrite (Hg i) by (left; reflexivity). ring.
Qed.

(** Either some term is positive, or the accumulation adds nothing. *)
Lemma accumulate_cases (g : Z -> R) (l : list Z) :
  (forall i, 0 <= g i) ->
  (exists j, In j l /\ 0 < g j) \/ (forall i, In i l -> g i = 0).
Proof.
  intros Hg. induction l as [| i l IH].
  - right. intros k [].
  - destruct IH as [[j [Hj Hpos]] | Hzero].
    + left. exists j. split; [right; exact Hj | exact Hpos].
    + destruct (Rle_lt_or_eq_dec 0 (g i) (Hg i)) as [Hpos | Heq].
      * left. exists i. split; [left; reflexivity | exact Hpos].
      * right. intros k [<- | Hk]; [symmetry; exact Heq | apply Hzero, Hk].
Qed.

Lemma exp_multiple (x : R) (k : nat) : exp (INR k * x) = exp x ^ k.
Proof.
  induction k as [| k IH].
  - simpl. rewrite Rmult_0_l. apply exp_0.
  - rewrite S_INR, Rmult_plus_distr_r, Rmult_1_l, exp_plus, IH. simpl. ring.
Qed.

(** [exp(-1000)] is below [2^-1075]. *)
Lemma exp_minus_1000_underflows : exp (-1000) < / 2 ^ 1075.
Proof.
  assert (H31 : 1 + 31/100 < exp (31/100)) by (apply exp_ineq1; lra).
  assert (H93 : 2 <= exp (93/100)).
  { replace (93/100) with (31/100 + (31/100 + 31/100)) by lra.
    rewrite !exp_plus. pose proof (exp_pos (31/100)). nra. }
  assert (Hpow : 2 ^ 1075 <= exp (93/100) ^ 1075)
    by (apply pow_incr; lra).
  rewrite <- exp_multiple in Hpow.
  assert (Hlt : exp (INR 1075 * (93/100)) < exp 1000).
  { apply exp_increasing. rewrite INR_IZR_INZ.
    change (Z.of_nat 1075) with 1075%Z. lra. }
  replace (-1000) with (- (1000)) by lra. rewrite exp_Ropp.
  apply Rinv_lt_contravar; [| lra].
  apply Rmult_lt_0_compat; [apply pow_lt; lra | apply exp_pos].
Qed.

Lemma In_counter_blocks (n i : Z) :
  fits_Int_t n -> In i (counter (wrap (n + 1))) <-> (0 <= i <= n)%Z.
Proof.
  intros Hn. rewrite wrap_small by int_bounds. rewrite In_counter. lia.
Qed.

(** Without underflow the two functions agree. *)
Lemma Evaluate_binary64_exact (self : ReaclibRate) (t9 : R) (par : list R) :
  (forall i, / 2 ^ 1075 <= exp (component t9 par i)) ->
  Evaluate_binary64 self t9 par = Evaluate self t9 par.
Proof.
  intros Hall. unfold Evaluate_binary64, Evaluate.
  set (l := counter (wrap (numResonances_ self + 1))).
  assert (Hacc : forall acc,
            fold_left (fun r i => r + exp_binary64 (component t9 par i)) l acc
            = fold_left (fun r i => r + exp (component t9 par i)) l acc).
  { induction l as [| i l IH]; intros acc; [reflexivity |].
    simpl. rewrite exp_binary64_exact by apply Hall. apply IH. }
  apply Hacc.
Qed.

(** C8 (amended): with the underflow of [exp] represented, and for [t9 > 0]
    and a parameter vector of length [7 * (numResonances + 1)], [Evaluate]
    returns a value that is not negative; it is strictly positive exactly
    when [exp] of the component of at least one block is not below
    [2^-1075], and it is 0 when all of them are. *)
Theorem Evaluate_binary64_sign (self : ReaclibRate) (t9 : R) (par : list R) :
  fits_Int_t (numResonances_ self) -> 0 < t9 ->
  Z.of_nat (length par) = (7 * (numResonances_ self + 1))%Z ->
  0 <= Evaluate_binary64 self t9 par
  /\ (0 < Evaluate_binary64 self t9 par <->
      exists i, (0 <= i <= numResonances_ self)%Z
                /\ / 2 ^ 1075 <= exp (component t9 par i))
  /\ ((forall i, (0 <= i <= numResonances_ self)%Z ->
                 exp (component t9 par i) < / 2 ^ 1075) ->
      Evaluate_binary64 self t9 par = 0).
Proof.
  intros Hn _ _.
  pose (g := fun i => exp_binary64 (component t9 par i)).
  pose (l := counter (wrap (numResonances_ self + 1))).
  change (Evaluate_binary64 self t9 par)
    with (fold_left (fun r i => r + g i) l 0).
  assert (Hg : forall i, 0 <= g i) by (intros i; apply exp_binary64_nonneg).
  assert (Hin : forall i, In i l <-> (0 <= i <= numResonances_ self)%Z)
    by (intros i; apply In_counter_blocks, Hn).
  split; [apply (accumulate_ge g l 0 Hg) |]. split; [split |].
  - intros Hpos. destruct (accumulate_cases g l Hg) as [[j [Hj Hgj]] | Hzero].
    + exists j. split; [apply Hin, Hj | apply exp_binary64_positive, Hgj].
    + rewrite (accumulate_zero g l 0 Hzero) in Hpos. lra.
  - intros [j [Hj Hexp]].
    apply (accumulate_positive g l 0 j Hg); [lra | apply Hin, Hj |].
    apply exp_binary64_positive, Hexp.
  - intros Hall. apply accumulate_zero. intros i Hi.
    apply exp_binary64_underflow, Hall, Hin, Hi.
Qed.

Lemma Evaluate_binary64_sign_witness :
  let m := ReaclibRate_ctor 0 6 1 0.92 in
  let par := [1; 2; 3; 4; 5; 6; 7] in
  fits_Int_t (numResonances_ m) /\ 0 < 1
  /\ Z.of_nat (length par) = (7 * (numResonances_ m + 1))%Z
  /\ 0 <= Evaluate_binary64 m 1 par.
Proof.
  intros m par.
  assert (H1 : fits_Int_t (numResonances_ m))
    by (unfold fits_Int_t, INT_MAX; simpl; lia).
  assert (H2 : 0 < 1) by lra.
  assert (H3 : Z.of_nat (length par) = (7 * (numResonances_ m + 1))%Z)
    by reflexivity.
  split; [exact H1 |]. split; [exact H2 |]. split; [exact H3 |].
  exact (proj1 (Evaluate_binary64_sign m 1 par H1 H2 H3)).
Defined.

(** C8, counterexample: with no resonance, [t9 = 1] and the parameters
    [(-1000, 0, 0, 0, 0, 0, 0)] the component of the only block is -1000,
    [exp(-1000)] underflows, and the rate returned is 0: it is not strictly
    positive. *)
Lemma Evaluate_binary64_not_positive :
  ~ 0 < Evaluate_binary64 (ReaclibRate_ctor 0 6 1 0.92) 1
          [-1000; 0; 0; 0; 0; 0; 0].
Proof.
  unfold Evaluate_binary64.
  change (counter (wrap (numResonances_ (ReaclibRate_ctor 0 6 1 0.92) + 1)))
    with [0%Z].
  cbn [fold_left].
  assert (Hc : component 1 [-1000; 0; 0; 0; 0; 0; 0] 0 = -1000).
  { unfold component. cbn [fold_left].
    change (at_index [-1000; 0; 0; 0; 0; 0; 0] (eval_index 0 0)) with (-1000).
    change (at_index [-1000; 0; 0; 0; 0; 0; 0] (eval_index 0 6)) with 0.
    change (at_index [-1000; 0; 0; 0; 0; 0; 0] (eval_index 0 1)) with 0.
    change (at_index [-1000; 0; 0; 0; 0; 0; 0] (eval_index 0 2)) with 0.
    change (at_index [-1000; 0; 0; 0; 0; 0; 0] (eval_index 0 3)) with 0.
    change (at_index [-1000; 0; 0; 0; 0; 0; 0] (eval_index 0 4)) with 0.
    change (at_index [-1000; 0; 0; 0; 0; 0; 0] (eval_index 0 5)) with 0.
    ring. }
  rewrite Hc, (exp_binary64_underflow _ exp_minus_1000_underflows). lra.
Qed.

End Underflow.
